(** * Performance.h: a shallow embedding of the [Performance] timer class

    The class keeps a [std::deque<process>] of timing records.  [start]
    appends a record and returns its index, [stop] writes the elapsed time
    of a record, [show_results] prints a table and [reset_results] clears
    the deque.

    Modelling conventions.
    - [int] is the 32-bit two's-complement integer of the ILP32, LP64 and
      LLP64 data models; a value converted to [int] is reduced by [to_int].
    - [std::size_t] is 64 bits wide; unsigned arithmetic is reduced by
      [to_size_t].
    - A [std::chrono::high_resolution_clock::time_point] is the number of
      nanosecond ticks since the clock's epoch, as in libstdc++, libc++
      and the MSVC library.  Every call of [now()] is an explicit argument
      [now] of the function that makes it.
    - A [std::string] is a [string] of bytes; [std::endl] is a line feed.
    - The [numpunct] facet of [std::locale("")] is a [locale] record.
      [std::locale("")] throws when the environment names no usable
      locale; what is stated of a formatted value or of a written line is
      stated under a locale, that is, of the calls that construct one.
    - Clock readings are subtracted in [Z]; the source subtracts two
      64-bit tick counts, so what is stated of a stored value concerns
      readings whose difference fits 64 bits.
    - An exception is a value of [result]; the registry that an operation
      leaves behind is returned next to it, also when it throws. *)

From Stdlib Require Import ZArith Lia Ascii String DecimalString.
From Stdlib Require DecimalPos DecimalZ.
From stdpp Require Import base tactics option list strings.

Open Scope Z_scope.

(** ** Machine integers *)

Definition INT_MAX : Z := 2147483647.
Definition INT_MIN : Z := -2147483648.

(** Conversion of an integer value to [int] (modulo 2^32, signed). *)
Definition to_int (z : Z) : Z := (z + 2147483648) mod 4294967296 - 2147483648.

(** Conversion of an integer value to [std::size_t] (modulo 2^64). *)
Definition to_size_t (z : Z) : Z := z mod 18446744073709551616.

Definition EXIT_SUCCESS : Z := 0.

(** ** Exceptions *)

Inductive exception : Type :=
  | out_of_range (what : string)
  | runtime_error (what : string).

Inductive result (A : Type) : Type :=
  | Return (a : A)
  | Throw (e : exception).

Arguments Return {A} a.
Arguments Throw {A} e.

(** ** Text *)

Definition endl : string := String (ascii_of_nat 10) EmptyString.
Definition tab : string := String (ascii_of_nat 9) EmptyString.

Definition size (s : string) : Z := Z.of_nat (String.length s).

Fixpoint spaces (n : nat) : string :=
  match n with
  | O => EmptyString
  | S k => String " "%char (spaces k)
  end.

(** [oss << std::setw(w) << s]: right adjustment with the fill character
    when the field is wider than the text, the text alone otherwise. *)
Definition setw (w : Z) (s : string) : string :=
  (spaces (Z.to_nat (w - size s)) +:+ s)%string.

(** The [numpunct<char>] facet of a locale: the separator and the sizes of
    the digit groups from the right, the last size repeating.  A size of 0
    or of [CHAR_MAX] and above ends the grouping. *)
Record locale : Type := {
  thousands_sep : ascii;
  grouping : list nat
}.

Definition classic_locale : locale :=
  {| thousands_sep := ","%char; grouping := [] |}.

Definition en_US : locale :=
  {| thousands_sep := ","%char; grouping := [3%nat] |}.

Definition no_group (g : nat) : bool := ((g =? 0) || (127 <=? g))%nat.

(** Separators laid between the digits, least significant digit first. *)
Fixpoint add_grouping (sep : ascii) (room g : nat) (gs : list nat)
    (ds : list ascii) : list ascii :=
  match ds with
  | [] => []
  | d :: ds' =>
      match room with
      | S k => d :: add_grouping sep k g gs ds'
      | O =>
          let g' := hd g gs in
          if no_group g' then sep :: d :: ds'
          else sep :: d :: add_grouping sep (g' - 1) g' (tl gs) ds'
      end
  end.

Definition group_digits (loc : locale) (ds : list ascii) : list ascii :=
  match grouping loc with
  | [] => ds
  | g :: gs =>
      if no_group g then ds
      else rev (add_grouping (thousands_sep loc) g g gs (rev ds))
  end.

Definition digits_of (u : Decimal.uint) : list ascii :=
  list_ascii_of_string (NilZero.string_of_uint u).

(** [oss << value] for an [int] under the locale [loc]. *)
Definition put_int (loc : locale) (value : Z) : string :=
  match Z.to_int value with
  | Decimal.Pos u => string_of_list_ascii (group_digits loc (digits_of u))
  | Decimal.Neg u =>
      String "-"%char (string_of_list_ascii (group_digits loc (digits_of u)))
  end.

(** ** std::chrono *)

Module chrono.

(** Target units of [duration_cast]. *)
Inductive unit_ : Type := seconds | milliseconds | microseconds | nanoseconds.

(** Clock ticks (nanoseconds) per unit. *)
Definition ticks (u : unit_) : Z :=
  match u with
  | seconds => 1000000000
  | milliseconds => 1000000
  | microseconds => 1000
  | nanoseconds => 1
  end.

(** [duration_cast<u>(d).count()] for a duration [d] of clock ticks:
    integer division, which in C++ truncates toward zero. *)
Definition duration_cast (u : unit_) (d : Z) : Z := Z.quot d (ticks u).

End chrono.

(** ** The class *)

Module Performance.

Definition UNINITIALIZED : Z := -1.

(** [struct process]. *)
Module process.
Record t : Type := mk {
  name : string;
  resolution : Z;
  time : Z;
  start_time : Z
}.

Definition set_name (s : string) (p : t) : t :=
  mk s (resolution p) (time p) (start_time p).
Definition set_resolution (r : Z) (p : t) : t :=
  mk (name p) r (time p) (start_time p).
Definition set_time (v : Z) (p : t) : t :=
  mk (name p) (resolution p) v (start_time p).

(** The default member initialisers; [now] is the clock reading of the
    initialiser of [start_time]. *)
Definition init (now : Z) : t := mk "" UNINITIALIZED UNINITIALIZED now.
End process.

(** [std::deque<process> processes]. *)
Abbreviation registry := (list process.t).

(** [enum struct resolution]. *)
Inductive resolution : Type :=
  | seconds
  | milliseconds
  | microseconds
  | nanoseconds.

(** [static_cast<int>(res)]. *)
Definition int_of_resolution (res : resolution) : Z :=
  match res with
  | seconds => 1
  | milliseconds => 2
  | microseconds => 3
  | nanoseconds => 4
  end.

(** The enumerator that a [case] label of [switch
    (static_cast<resolution>(i))] matches, if any. *)
Definition resolution_of_int (i : Z) : option resolution :=
  if decide (i = 1) then Some seconds
  else if decide (i = 2) then Some milliseconds
  else if decide (i = 3) then Some microseconds
  else if decide (i = 4) then Some nanoseconds
  else None.

(** [processes.at(n)] for an [int] argument.  The argument is converted
    to [size_type]; a negative [int] becomes a value of at least
    2^64 - 2^31, which is beyond [max_size()] of any deque, so [at]
    throws [std::out_of_range] exactly when [n] is negative or not below
    the size. *)
Definition at_ (processes : registry) (n : Z) : result process.t :=
  if decide (0 <= n) then
    match processes !! Z.to_nat n with
    | Some p => Return p
    | None => Throw (out_of_range "deque::_M_range_check")
    end
  else Throw (out_of_range "deque::_M_range_check").

(** [processes.at(n).time = v], the element being known to exist. *)
Definition assign_time (processes : registry) (n : Z) (v : Z) : registry :=
  match processes !! Z.to_nat n with
  | Some p => <[Z.to_nat n := process.set_time v p]> processes
  | None => processes
  end.

(** [int start(std::string process_name, resolution res)]. *)
Definition start (now : Z) (process_name : string) (res : resolution)
    (processes : registry) : registry * Z :=
  let step_position := to_int (Z.of_nat (length processes)) in
  let this_step := process.init now in
  let this_step := process.set_name process_name this_step in
  let this_step := process.set_resolution (int_of_resolution res) this_step in
  (processes ++ [this_step], step_position).

Definition invalid_operation : string := "Error: Invalid Performance Operation".

(** The [try] block of [stop]. *)
Definition stop_try (now : Z) (process_id : Z) (processes : registry)
    : registry * result Z :=
  let end_time := now in
  match at_ processes process_id with
  | Throw e => (processes, Throw e)
  | Return p =>
      let start_time := process.start_time p in
      let processes :=
        match resolution_of_int (process.resolution p) with
        | Some seconds =>
            assign_time processes process_id
              (to_int (chrono.duration_cast chrono.seconds (end_time - start_time)))
        | Some milliseconds =>
            assign_time processes process_id
              (to_int (chrono.duration_cast chrono.milliseconds (end_time - start_time)))
        | Some microseconds =>
            assign_time processes process_id
              (to_int (chrono.duration_cast chrono.microseconds (end_time - start_time)))
        | Some nanoseconds =>
            assign_time processes process_id
              (to_int (chrono.duration_cast chrono.nanoseconds (end_time - start_time)))
        | None => processes
        end in
      match at_ processes process_id with
      | Throw e => (processes, Throw e)
      | Return p' =>
          if decide (process.time p' > UNINITIALIZED)
          then (processes, Return EXIT_SUCCESS)
          else (processes, Throw (runtime_error invalid_operation))
      end
  end.

(** [int stop(const int process_id)]: whatever the [try] block throws is
    caught and replaced by the same [std::runtime_error]. *)
Definition stop (now : Z) (process_id : Z) (processes : registry)
    : registry * result Z :=
  match stop_try now process_id processes with
  | (processes', Return v) => (processes', Return v)
  | (processes', Throw _) => (processes', Throw (runtime_error invalid_operation))
  end.

(** [std::string format_integer_thousand_separator(int value)], the
    stream being imbued with the locale of the environment. *)
Definition format_integer_thousand_separator (loc : locale) (value : Z) : string :=
  put_int loc value.

Definition table_seperator : string :=
  "---------------------------------------------------------------------------".

(** The body of the [for] loop of [show_results]: the line of one record. *)
Definition show_step (loc : locale) (step : process.t) : string :=
  let suffix_string :=
    match resolution_of_int (process.resolution step) with
    | Some seconds => "s"
    | Some milliseconds => "ms"
    | Some microseconds => "microseconds"
    | Some nanoseconds => "ns"
    | None => ""
    end in
  let '(runtime, suffix_string) :=
    if decide (process.time step = -1)
    then ("STILL RUNNING", "")
    else (format_integer_thousand_separator loc (process.time step), suffix_string) in
  let runtime_string := runtime +:+ " " +:+ suffix_string in
  process.name step
  +:+ setw (to_int (to_size_t (size table_seperator - size (process.name step))))
        runtime_string
  +:+ endl.

Fixpoint show_steps (loc : locale) (processes : registry) : string :=
  match processes with
  | [] => ""
  | step :: rest => show_step loc step +:+ show_steps loc rest
  end.

(** [void show_results(std::string table_title)]: the registry after the
    call and the text written to [std::cout]. *)
Definition show_results (loc : locale) (table_title : string)
    (processes : registry) : registry * string :=
  let oss := endl +:+ table_seperator +:+ endl in
  let oss :=
    oss +:+ setw (to_int (to_size_t (size table_seperator / 2 + size table_title / 2)))
              table_title +:+ endl in
  let oss := oss +:+ table_seperator +:+ endl +:+ endl in
  let oss :=
    if decide (length processes = 0%nat)
    then oss +:+ tab +:+ "No Events Tracked" +:+ endl
    else oss +:+ show_steps loc processes in
  let oss := oss +:+ endl +:+ table_seperator +:+ endl +:+ endl in
  (processes, oss).

(** [void reset_results()]. *)
Definition reset_results (processes : registry) : registry := [].

End Performance.

(** ** Callers

    A caller's straight-line program over one registry: a list of calls,
    each with the clock readings it makes.  A caller that catches the
    exception of [stop] goes on with the registry as [stop] left it. *)

Import Performance.

Inductive call : Type :=
  | call_start (now : Z) (process_name : string) (res : resolution)
  | call_stop (now : Z) (process_id : Z)
  | call_show_results (table_title : string)
  | call_reset_results.

Inductive outcome : Type :=
  | started (process_id : Z)
  | stopped (r : result Z)
  | shown (text : string)
  | cleared.

Definition step (loc : locale) (c : call) (processes : registry)
    : registry * outcome :=
  match c with
  | call_start now process_name res =>
      let '(processes', id) := start now process_name res processes in
      (processes', started id)
  | call_stop now process_id =>
      let '(processes', r) := stop now process_id processes in
      (processes', stopped r)
  | call_show_results table_title =>
      let '(processes', text) := show_results loc table_title processes in
      (processes', shown text)
  | call_reset_results => (reset_results processes, cleared)
  end.

Fixpoint run (loc : locale) (cs : list call) (processes : registry)
    : registry * list outcome :=
  match cs with
  | [] => (processes, [])
  | c :: cs' =>
      let '(processes', o) := step loc c processes in
      let '(processes'', os) := run loc cs' processes' in
      (processes'', o :: os)
  end.

(** The handles that the [start] calls of a program returned, in order. *)
Fixpoint handles (os : list outcome) : list Z :=
  match os with
  | [] => []
  | started id :: os' => id :: handles os'
  | _ :: os' => handles os'
  end.

Definition is_start (c : call) : bool :=
  match c with call_start _ _ _ => true | _ => false end.

Definition is_reset (c : call) : bool :=
  match c with call_reset_results => true | _ => false end.

Definition count_starts (cs : list call) : nat := length (List.filter is_start cs).

Definition no_reset (cs : list call) : bool :=
  forallb (fun c => negb (is_reset c)) cs.

(** The call is a [stop] of the record at index [i]. *)
Definition stops_on (i : nat) (c : call) : bool :=
  match c with
  | call_stop _ process_id => bool_decide (process_id = Z.of_nat i)
  | _ => false
  end.

(** No [stop] of the program threw. *)
Definition no_throw (os : list outcome) : bool :=
  forallb (fun o => match o with stopped (Throw _) => false | _ => true end) os.

(** No [stop] of the record at index [i] threw: [os] are the outcomes of
    the calls [cs], one by one. *)
Fixpoint own_stops_return (i : nat) (cs : list call) (os : list outcome) : bool :=
  match cs, os with
  | c :: cs', o :: os' =>
      (negb (stops_on i c) || no_throw [o]) && own_stops_return i cs' os'
  | _, _ => true
  end.

(** The value that [stop] at the clock reading [now] assigns to the [time]
    of the record [p]: the [case] of its resolution, or no assignment. *)
Definition stop_time (now : Z) (p : process.t) : Z :=
  match resolution_of_int (process.resolution p) with
  | Some seconds =>
      to_int (chrono.duration_cast chrono.seconds (now - process.start_time p))
  | Some milliseconds =>
      to_int (chrono.duration_cast chrono.milliseconds (now - process.start_time p))
  | Some microseconds =>
      to_int (chrono.duration_cast chrono.microseconds (now - process.start_time p))
  | Some nanoseconds =>
      to_int (chrono.duration_cast chrono.nanoseconds (now - process.start_time p))
  | None => process.time p
  end.

(** The [chrono] unit of each [case] of [stop]. *)
Definition unit_of (res : resolution) : chrono.unit_ :=
  match res with
  | seconds => chrono.seconds
  | milliseconds => chrono.milliseconds
  | microseconds => chrono.microseconds
  | nanoseconds => chrono.nanoseconds
  end.

(** The lines of [show_results] above and below the records. *)
Definition table_head (table_title : string) : string :=
  endl +:+ table_seperator +:+ endl
  +:+ setw (to_int (to_size_t (size table_seperator / 2 + size table_title / 2)))
        table_title +:+ endl
  +:+ table_seperator +:+ endl +:+ endl.

Definition table_foot : string := endl +:+ table_seperator +:+ endl +:+ endl.

(** The line of [show_results] for a record that is still running. *)
Definition still_running_line (process_name : string) : string :=
  process_name
  +:+ setw (to_int (to_size_t (size table_seperator - size process_name)))
        "STILL RUNNING "
  +:+ endl.

(** The characters that a formatted [int] can start with. *)
Definition sign_or_digit (c : ascii) : Prop :=
  In c ["-"; "0"; "1"; "2"; "3"; "4"; "5"; "6"; "7"; "8"; "9"]%char.

(** The text [s] without the occurrences of the character [sep]. *)
Fixpoint strip (sep : ascii) (s : string) : string :=
  match s with
  | EmptyString => EmptyString
  | String c s' =>
      if Ascii.eqb c sep then strip sep s' else String c (strip sep s')
  end.

(** [runtime_string] of the loop of [show_results]: the text of the right
    column of a record. *)
Definition runtime_string (loc : locale) (step : process.t) : string :=
  if decide (process.time step = -1)
  then "STILL RUNNING" +:+ " " +:+ ""
  else format_integer_thousand_separator loc (process.time step) +:+ " "
       +:+ match resolution_of_int (process.resolution step) with
           | Some seconds => "s"
           | Some milliseconds => "ms"
           | Some microseconds => "microseconds"
           | Some nanoseconds => "ns"
           | None => ""
           end.

(** * Properties *)

(** ** Machine integers *)

Lemma to_int_small (z : Z) : INT_MIN <= z <= INT_MAX -> to_int z = z.
Proof.
  unfold INT_MIN, INT_MAX, to_int. intros Hz.
  rewrite Z.mod_small; lia.
Qed.

Lemma to_int_range (z : Z) : INT_MIN <= to_int z <= INT_MAX.
Proof.
  unfold INT_MIN, INT_MAX, to_int.
  pose proof (Z.mod_pos_bound (z + 2147483648) 4294967296). lia.
Qed.

(** ** The deque *)

Lemma at_Return (processes : registry) (n : Z) (p : process.t) :
  at_ processes n = Return p <-> 0 <= n /\ processes !! Z.to_nat n = Some p.
Proof.
  unfold at_. destruct (decide (0 <= n)) as [Hn|Hn].
  - destruct (processes !! Z.to_nat n) as [q|] eqn:Hq; split.
    + intros [= ->]. auto.
    + intros [_ [= ->]]. reflexivity.
    + discriminate.
    + intros [_ ?]. discriminate.
  - split; [discriminate | intros [? _]; contradiction].
Qed.

Lemma at_Throw (processes : registry) (n : Z) :
  n < 0 \/ Z.of_nat (length processes) <= n ->
  exists e, at_ processes n = Throw e.
Proof.
  intros Hn. unfold at_. destruct (decide (0 <= n)) as [H0|H0]; [|eauto].
  destruct (processes !! Z.to_nat n) as [q|] eqn:Hq; [|eauto].
  apply lookup_lt_Some in Hq. lia.
Qed.

Lemma at_Throw_inv (processes : registry) (n : Z) (e : exception) :
  at_ processes n = Throw e ->
  n < 0 \/ Z.of_nat (length processes) <= n.
Proof.
  unfold at_. destruct (decide (0 <= n)) as [H0|H0]; [|lia].
  destruct (processes !! Z.to_nat n) as [q|] eqn:Hq; [discriminate|].
  apply lookup_ge_None in Hq. lia.
Qed.

(** ** [stop], case by case *)

Lemma stop_out_of_range (now process_id : Z) (processes : registry) (e : exception) :
  at_ processes process_id = Throw e ->
  stop now process_id processes
  = (processes, Throw (runtime_error invalid_operation)).
Proof. intros He. unfold stop, stop_try. rewrite He. reflexivity. Qed.

Lemma stop_in_range (now process_id : Z) (processes : registry) (p : process.t) :
  0 <= process_id ->
  processes !! Z.to_nat process_id = Some p ->
  stop now process_id processes
  = (<[Z.to_nat process_id := process.set_time (stop_time now p) p]> processes,
     if decide (stop_time now p > UNINITIALIZED)
     then Return EXIT_SUCCESS
     else Throw (runtime_error invalid_operation)).
Proof.
  intros H0 Hp.
  assert (Hat : at_ processes process_id = Return p) by (apply at_Return; auto).
  assert (Hlt : (Z.to_nat process_id < length processes)%nat)
    by (eapply lookup_lt_Some; eassumption).
  assert (Hset : forall v,
    at_ (<[Z.to_nat process_id := process.set_time v p]> processes) process_id
    = Return (process.set_time v p)).
  { intros v. apply at_Return. split; [assumption|].
    apply list_lookup_insert_eq. assumption. }
  unfold stop, stop_try, stop_time. rewrite Hat.
  destruct (resolution_of_int (process.resolution p)) as [[]|];
    unfold assign_time; rewrite ?Hp, ?Hset, ?Hat; simpl process.time.
  1-4: match goal with |- context [decide ?P] => destruct (decide P) end; reflexivity.
  replace (process.set_time (process.time p) p) with p by (destruct p; reflexivity).
  rewrite list_insert_id by assumption.
  destruct (decide (process.time p > UNINITIALIZED)); reflexivity.
Qed.

(** The two cases of a call of [stop]: the handle is in range and names
    the record [p], or [at] throws. *)
Tactic Notation "stop_cases" constr(now) constr(process_id) constr(processes)
    "as" ident(p) ident(H0) ident(Hp) ident(Hat) :=
  let e := fresh "e" in
  destruct (at_ processes process_id) as [p|e] eqn:Hat;
  [ apply at_Return in Hat as [H0 Hp];
    rewrite (stop_in_range now process_id processes p H0 Hp) in *
  | rewrite (stop_out_of_range now process_id processes e Hat) in * ].

Lemma stop_length (now process_id : Z) (processes : registry) :
  length (fst (stop now process_id processes)) = length processes.
Proof.
  stop_cases now process_id processes as p H0 Hp Hat.
  - apply length_insert.
  - reflexivity.
Qed.

Lemma start_length now process_name res (processes : registry) :
  length (fst (start now process_name res processes)) = S (length processes).
Proof. unfold start. simpl. rewrite length_app. simpl. lia. Qed.

(** A new record is unset. *)
Lemma start_unset now process_name res (processes : registry) :
  fst (start now process_name res processes) !! length processes
  = Some (process.mk process_name (int_of_resolution res) UNINITIALIZED now).
Proof.
  unfold start. cbn [fst]. rewrite lookup_app_r by lia.
  rewrite Nat.sub_diag. reflexivity.
Qed.

(** ** [stop]: errors and frame *)

(** C2: on a registry of N records, [stop] with a negative handle (as in
    [stop(-1)]) or with a handle H >= N throws the one error of the class,
    [std::runtime_error("Error: Invalid Performance Operation")], and so
    never returns; the registry is left as it was. *)
Theorem stop_invalid_handle (now process_id : Z) (processes : registry) :
  process_id < 0 \/ Z.of_nat (length processes) <= process_id ->
  stop now process_id processes
  = (processes, Throw (runtime_error invalid_operation))
  /\ forall v, snd (stop now process_id processes) <> Return v.
Proof.
  intros Hid. destruct (at_Throw processes process_id Hid) as [e He].
  rewrite (stop_out_of_range now _ _ _ He).
  split; [reflexivity | intros v; discriminate].
Qed.

(** [stop(-1)] and [stop(1)] on a registry of one record. *)
Lemma stop_invalid_handle_witness :
  ((-1 < 0 \/ Z.of_nat (length [process.mk "load" 2 (-1) 0]) <= -1)
   /\ stop 7 (-1) [process.mk "load" 2 (-1) 0]
      = ([process.mk "load" 2 (-1) 0], Throw (runtime_error invalid_operation)))
  /\ ((1 < 0 \/ Z.of_nat (length [process.mk "load" 2 (-1) 0]) <= 1)
      /\ stop 7 1 [process.mk "load" 2 (-1) 0]
         = ([process.mk "load" 2 (-1) 0], Throw (runtime_error invalid_operation))).
Proof.
  split; (split; [|apply stop_invalid_handle]).
  - left. lia.
  - left. lia.
  - right. simpl. lia.
  - right. simpl. lia.
Defined.

(** C4 as stated fails on the path of a negative elapsed value: the value
    is assigned to [time] before it is compared with [UNINITIALIZED].
    First a clock that stepped back by 5 ms, then a monotonic clock and
    3 s at nanosecond resolution, which is negative as an [int]. *)
Lemma stop_failure_mutates :
  stop 0 0 [process.mk "load" 2 (-1) 5000000]
  = ([process.mk "load" 2 (-5) 5000000], Throw (runtime_error invalid_operation))
  /\ stop 3000000000 0 (fst (start 0 "load" nanoseconds []))
     = ([process.mk "load" 4 (-1294967296) 0],
        Throw (runtime_error invalid_operation))
  /\ fst (start 0 "load" nanoseconds []) = [process.mk "load" 4 (-1) 0].
Proof. repeat split. Qed.

(** C4, amended: when [stop] throws, it throws the one error of the
    class, and either the handle is out of range and the registry is
    exactly what it was, or the handle is in range, the value computed for
    it is not above [UNINITIALIZED], and the registry differs from the one
    before the call at most in the [time] of the record of the handle,
    which holds the computed value. *)
Theorem stop_failure_frame (now process_id : Z) (processes processes' : registry)
    (e : exception) :
  stop now process_id processes = (processes', Throw e) ->
  e = runtime_error invalid_operation
  /\ (((process_id < 0 \/ Z.of_nat (length processes) <= process_id)
       /\ processes' = processes)
      \/ (exists p, 0 <= process_id
           /\ processes !! Z.to_nat process_id = Some p
           /\ stop_time now p <= UNINITIALIZED
           /\ processes'
              = <[Z.to_nat process_id := process.set_time (stop_time now p) p]>
                  processes)).
Proof.
  intros Hstop.
  stop_cases now process_id processes as p H0 Hp Hat.
  - destruct (decide (stop_time now p > UNINITIALIZED)) as [Hgt|Hle];
      [discriminate|].
    injection Hstop as <- <-. split; [reflexivity|].
    right. exists p. repeat split; first [assumption | lia].
  - injection Hstop as <- <-. split; [reflexivity|].
    left. split; [|reflexivity]. eapply at_Throw_inv. eassumption.
Qed.

Lemma stop_failure_frame_witness :
  stop 0 0 [process.mk "load" 2 (-1) 5000000]
  = ([process.mk "load" 2 (-5) 5000000], Throw (runtime_error invalid_operation))
  /\ (((0 < 0 \/ Z.of_nat (length [process.mk "load" 2 (-1) 5000000]) <= 0)
       /\ [process.mk "load" 2 (-5) 5000000] = [process.mk "load" 2 (-1) 5000000])
      \/ (exists p, 0 <= 0
           /\ [process.mk "load" 2 (-1) 5000000] !! Z.to_nat 0 = Some p
           /\ stop_time 0 p <= UNINITIALIZED
           /\ [process.mk "load" 2 (-5) 5000000]
              = <[Z.to_nat 0 := process.set_time (stop_time 0 p) p]>
                  [process.mk "load" 2 (-1) 5000000])).
Proof.
  split; [reflexivity|].
  exact (proj2 (stop_failure_frame 0 0 [process.mk "load" 2 (-1) 5000000]
                  [process.mk "load" 2 (-5) 5000000]
                  (runtime_error invalid_operation) eq_refl)).
Defined.

(** C10: a [stop] that returns, returns [EXIT_SUCCESS] for a handle in
    range, and changes nothing but the [time] of the record at the handle:
    the count of records, every record at another index, and the [name],
    [resolution] and [start_time] of the record at the handle are what
    they were. *)
Theorem stop_success_frame (now process_id v : Z) (processes processes' : registry) :
  stop now process_id processes = (processes', Return v) ->
  v = EXIT_SUCCESS
  /\ length processes' = length processes
  /\ (forall i, i <> Z.to_nat process_id -> processes' !! i = processes !! i)
  /\ exists p p',
       0 <= process_id
       /\ processes !! Z.to_nat process_id = Some p
       /\ processes' !! Z.to_nat process_id = Some p'
       /\ process.name p' = process.name p
       /\ process.resolution p' = process.resolution p
       /\ process.start_time p' = process.start_time p.
Proof.
  intros Hstop.
  stop_cases now process_id processes as p H0 Hp Hat.
  - destruct (decide (stop_time now p > UNINITIALIZED)) as [Hgt|Hle];
      [|discriminate].
    injection Hstop as <- <-. split; [reflexivity|].
    split; [apply length_insert|]. split.
    + intros i Hi. apply list_lookup_insert_ne. auto.
    + exists p, (process.set_time (stop_time now p) p).
      repeat split; try assumption.
      apply list_lookup_insert_eq. eapply lookup_lt_Some. eassumption.
  - discriminate.
Qed.

Lemma stop_success_frame_witness :
  stop 5000000 0 [process.mk "load" 2 (-1) 0; process.mk "parse" 3 (-1) 10]
  = ([process.mk "load" 2 5 0; process.mk "parse" 3 (-1) 10], Return 0)
  /\ length [process.mk "load" 2 5 0; process.mk "parse" 3 (-1) 10]
     = length [process.mk "load" 2 (-1) 0; process.mk "parse" 3 (-1) 10]
  /\ [process.mk "load" 2 5 0; process.mk "parse" 3 (-1) 10] !! 1%nat
     = [process.mk "load" 2 (-1) 0; process.mk "parse" 3 (-1) 10] !! 1%nat.
Proof.
  split; [reflexivity|].
  destruct (stop_success_frame 5000000 0 0
              [process.mk "load" 2 (-1) 0; process.mk "parse" 3 (-1) 10]
              [process.mk "load" 2 5 0; process.mk "parse" 3 (-1) 10] eq_refl)
    as (_ & Hlen & Hother & _).
  split; [exact Hlen | apply Hother; discriminate].
Defined.

(** ** Programs *)

Section programs.

Context (loc : locale).

Lemma run_cons (c : call) (cs : list call) (processes : registry) :
  run loc (c :: cs) processes
  = (fst (run loc cs (fst (step loc c processes))),
     snd (step loc c processes) :: snd (run loc cs (fst (step loc c processes)))).
Proof.
  simpl. destruct (step loc c processes) as [ps1 o].
  simpl. destruct (run loc cs ps1) as [ps2 os]. reflexivity.
Qed.

Lemma step_start now process_name res (processes : registry) :
  step loc (call_start now process_name res) processes
  = (fst (start now process_name res processes),
     started (to_int (Z.of_nat (length processes)))).
Proof. reflexivity. Qed.

Lemma step_stop now process_id (processes : registry) :
  step loc (call_stop now process_id) processes
  = (fst (stop now process_id processes),
     stopped (snd (stop now process_id processes))).
Proof. simpl. destruct (stop now process_id processes). reflexivity. Qed.

Lemma step_show_results table_title (processes : registry) :
  step loc (call_show_results table_title) processes
  = (processes, shown (snd (show_results loc table_title processes))).
Proof. reflexivity. Qed.

Lemma no_reset_cons (c : call) (cs : list call) :
  no_reset (c :: cs) = true -> is_reset c = false /\ no_reset cs = true.
Proof.
  unfold no_reset. cbn [forallb]. intros [Hc Hcs]%andb_prop.
  apply negb_true_iff in Hc. auto.
Qed.

(** The handles of a program without [reset_results] are the sizes of the
    deque at its [start] calls, each converted to [int]. *)
Lemma run_handles (cs : list call) :
  forall processes : registry,
  no_reset cs = true ->
  handles (snd (run loc cs processes))
  = (fun n => to_int (Z.of_nat n)) <$> seq (length processes) (count_starts cs).
Proof.
  induction cs as [|c cs IH]; intros processes Hnr; [reflexivity|].
  rewrite run_cons. cbn [snd].
  apply no_reset_cons in Hnr as [Hc Hcs].
  destruct c as [now process_name res|now process_id|table_title|].
  - rewrite step_start. cbn [fst snd handles].
    rewrite (IH _ Hcs), start_length. reflexivity.
  - rewrite step_stop. cbn [fst snd handles].
    rewrite (IH _ Hcs), stop_length. reflexivity.
  - rewrite step_show_results. cbn [fst snd handles].
    rewrite (IH _ Hcs). reflexivity.
  - discriminate Hc.
Qed.

(** C1, amended: in every program without [reset_results] that makes at
    most 2^31 [start] calls on an empty registry, the Nth [start] call
    (counted from 0) returns handle N; the handles are non-negative and
    strictly increasing. *)
Theorem start_returns_position (cs : list call) :
  no_reset cs = true ->
  Z.of_nat (count_starts cs) <= INT_MAX + 1 ->
  let hs := handles (snd (run loc cs [])) in
  hs = Z.of_nat <$> seq 0 (count_starts cs)
  /\ (forall N h, hs !! N = Some h -> h = Z.of_nat N /\ 0 <= h)
  /\ (forall i j hi hj, (i < j)%nat -> hs !! i = Some hi -> hs !! j = Some hj -> hi < hj).
Proof.
  intros Hnr Hmax hs.
  assert (Hhs : hs = Z.of_nat <$> seq 0 (count_starts cs)).
  { subst hs. rewrite (run_handles cs [] Hnr). cbn [length].
    apply list_eq. intros i. rewrite !list_lookup_fmap.
    destruct (seq 0 (count_starts cs) !! i) as [n|] eqn:Hn; [|reflexivity].
    apply lookup_seq in Hn as [-> Hi]. cbn [fmap option_fmap option_map].
    f_equal. apply to_int_small. unfold INT_MIN, INT_MAX in *. lia. }
  assert (Hlook : forall N h, hs !! N = Some h -> h = Z.of_nat N).
  { intros N h. rewrite Hhs, list_lookup_fmap.
    destruct (seq 0 (count_starts cs) !! N) as [n|] eqn:Hn; [|discriminate].
    apply lookup_seq in Hn as [-> _]. intros [= <-]. reflexivity. }
  split; [exact Hhs|]. split.
  - intros N h HN. apply Hlook in HN. lia.
  - intros i j hi hj Hij Hi Hj. apply Hlook in Hi, Hj. lia.
Qed.

(** One call that is not [reset_results]: the record at index [i] stays
    where it is and keeps the fields that [stop] does not assign; it is
    untouched by every call but a [stop] of its own handle, and such a
    [stop], when it does not throw, has stored a value above
    [UNINITIALIZED]. *)
Lemma step_record (c : call) (processes : registry) (i : nat) (p : process.t) :
  is_reset c = false ->
  (stops_on i c = true -> no_throw [snd (step loc c processes)] = true) ->
  processes !! i = Some p ->
  exists p',
    fst (step loc c processes) !! i = Some p'
    /\ process.name p' = process.name p
    /\ process.resolution p' = process.resolution p
    /\ process.start_time p' = process.start_time p
    /\ ((stops_on i c = false /\ p' = p)
        \/ (stops_on i c = true /\ 0 <= process.time p')).
Proof.
  intros Hreset Hok Hp.
  assert (Hlt : (i < length processes)%nat) by (eapply lookup_lt_Some; eassumption).
  destruct c as [now process_name res|now process_id|table_title|];
    [| | |discriminate Hreset].
  - exists p. rewrite step_start. cbn [fst]. unfold start. cbn [fst].
    rewrite lookup_app_l by assumption. auto 10.
  - rewrite step_stop in *. cbn [fst snd stops_on] in *.
    stop_cases now process_id processes as q H0 Hq Hat; cbn [fst snd] in *.
    + destruct (decide (i = Z.to_nat process_id)) as [->|Hne].
      * assert (q = p) as -> by congruence.
        assert (Hon : bool_decide (process_id = Z.of_nat (Z.to_nat process_id)) = true)
          by (apply bool_decide_eq_true; lia).
        specialize (Hok Hon).
        destruct (decide (stop_time now p > UNINITIALIZED)) as [Hgt|Hle];
          [|discriminate Hok].
        exists (process.set_time (stop_time now p) p).
        rewrite list_lookup_insert_eq by assumption.
        repeat split. right. split; [exact Hon|].
        cbn [process.set_time process.time]. unfold UNINITIALIZED in Hgt. lia.
      * exists p. rewrite list_lookup_insert_ne by auto.
        repeat split; [assumption|]. left. split; [|reflexivity].
        apply bool_decide_eq_false. lia.
    + exists p. repeat split; [assumption|]. left. split; [|reflexivity].
      apply bool_decide_eq_false. intros ->.
      apply at_Throw_inv in Hat. lia.
  - exists p. rewrite step_show_results. cbn [fst]. auto 10.
Qed.

(** C3, amended: over every program of [start], [stop] and [show_results]
    calls in which no [stop] of the record's own handle throws ([stop]
    calls of other handles may throw), a record keeps its [name],
    [resolution] and [start_time]; its [time] is what it was when the
    program has no [stop] on its handle, is non-negative when it has one
    (each such [stop] assigns it anew), and once non-negative stays
    non-negative. *)
Theorem time_over_program (cs : list call) :
  forall (processes : registry) (i : nat) (p : process.t),
  no_reset cs = true ->
  own_stops_return i cs (snd (run loc cs processes)) = true ->
  processes !! i = Some p ->
  exists p',
    fst (run loc cs processes) !! i = Some p'
    /\ process.name p' = process.name p
    /\ process.resolution p' = process.resolution p
    /\ process.start_time p' = process.start_time p
    /\ (existsb (stops_on i) cs = false -> process.time p' = process.time p)
    /\ (existsb (stops_on i) cs = true -> 0 <= process.time p')
    /\ (0 <= process.time p -> 0 <= process.time p').
Proof.
  induction cs as [|c cs IH]; intros processes i p Hnr Hok Hp.
  - exists p. cbn. repeat split; auto; discriminate.
  - apply no_reset_cons in Hnr as [Hc Hcs].
    rewrite run_cons in *. cbn [fst snd own_stops_return] in *.
    apply andb_prop in Hok as [Hok1 Hok2].
    destruct (step_record c processes i p Hc)
      as (p1 & Hp1 & Hn1 & Hr1 & Hs1 & Hcase);
      [intros Hon; rewrite Hon in Hok1; exact Hok1 | assumption |].
    destruct (IH _ i p1 Hcs Hok2 Hp1)
      as (p' & Hp' & Hn & Hr & Hs & Hsame & Hset & Hkeep).
    exists p'. split; [assumption|].
    split; [congruence|]. split; [congruence|]. split; [congruence|].
    cbn [existsb].
    destruct Hcase as [[Hoff ->]|[Hon Hpos]]; rewrite ?Hoff, ?Hon; cbn [orb].
    + auto.
    + repeat split; [discriminate | auto | auto].
Qed.

End programs.

(** The session of the specification: two timers, one stopped, a report,
    a reset, a report. *)
Example session :
  run en_US
    [call_start 0 "load" milliseconds; call_start 10 "parse" microseconds;
     call_stop 5000000 0; call_show_results "Timing"; call_reset_results;
     call_show_results "Performance List"] []
  = ([],
     [started 0; started 1; stopped (Return EXIT_SUCCESS);
      shown (table_head "Timing"
             +:+ ("load" +:+ spaces 67 +:+ "5 ms" +:+ endl
                  +:+ "parse" +:+ spaces 56 +:+ "STILL RUNNING " +:+ endl)
             +:+ table_foot);
      cleared;
      shown (table_head "Performance List"
             +:+ (tab +:+ "No Events Tracked" +:+ endl)
             +:+ table_foot)]).
Proof. reflexivity. Qed.

(** ** Handles *)

Lemma start_returns_position_witness :
  no_reset [call_start 0 "load" milliseconds; call_stop 5000000 0;
            call_start 10 "parse" microseconds] = true
  /\ Z.of_nat (count_starts [call_start 0 "load" milliseconds; call_stop 5000000 0;
                             call_start 10 "parse" microseconds]) <= INT_MAX + 1
  /\ handles (snd (run en_US
        [call_start 0 "load" milliseconds; call_stop 5000000 0;
         call_start 10 "parse" microseconds] [])) = [0; 1].
Proof.
  split; [reflexivity|]. split; [vm_compute; discriminate|].
  apply (start_returns_position en_US
           [call_start 0 "load" milliseconds; call_stop 5000000 0;
            call_start 10 "parse" microseconds]).
  - reflexivity.
  - vm_compute. discriminate.
Defined.

Lemma count_starts_replicate (n : nat) now process_name res :
  count_starts (replicate n (call_start now process_name res)) = n.
Proof.
  unfold count_starts. induction n as [|n IH]; [reflexivity|].
  cbn [replicate List.filter is_start length]. rewrite IH. reflexivity.
Qed.

Lemma no_reset_replicate (n : nat) now process_name res :
  no_reset (replicate n (call_start now process_name res)) = true.
Proof.
  unfold no_reset. induction n as [|n IH]; [reflexivity|].
  cbn [replicate forallb is_reset negb andb]. exact IH.
Qed.

Lemma handles_replicate_start (loc : locale) (n : nat) now process_name res :
  handles (snd (run loc (replicate (S n) (call_start now process_name res)) [])) !! n
  = Some (to_int (Z.of_nat n)).
Proof.
  rewrite run_handles by apply no_reset_replicate.
  rewrite count_starts_replicate, list_lookup_fmap.
  cbn [length].
  rewrite (proj2 (lookup_seq 0 (S n) n (0 + n)%nat)) by (split; [reflexivity|lia]).
  reflexivity.
Qed.

(** C1 as stated fails when the count of records passes [INT_MAX]: the
    [start] call number 2^31 returns the size 2^31 converted to [int],
    which is [INT_MIN]. *)
Lemma start_position_overflow :
  handles (snd (run classic_locale
    (replicate (S (Z.to_nat 2147483648)) (call_start 0 "UNKNOWN" milliseconds)) []))
    !! Z.to_nat 2147483648
  = Some (-2147483648).
Proof.
  rewrite handles_replicate_start.
  rewrite Z2Nat.id by (intros H; discriminate H).
  reflexivity.
Qed.

(** ** The [time] of a record over a program *)

(** C3 as stated fails: every [stop] that returns assigns [time] anew, and
    a [stop] that throws has assigned it as well.  A record started at 0
    and stopped at 5 ms and again at 7 ms goes from -1 to 5 and from 5 to
    7; a record at nanosecond resolution stopped 3 s after its start goes
    from -1 to -1294967296. *)
Lemma stop_twice_overwrites :
  fst (start 0 "load" milliseconds []) = [process.mk "load" 2 (-1) 0]
  /\ stop 5000000 0 [process.mk "load" 2 (-1) 0]
     = ([process.mk "load" 2 5 0], Return EXIT_SUCCESS)
  /\ stop 7000000 0 [process.mk "load" 2 5 0]
     = ([process.mk "load" 2 7 0], Return EXIT_SUCCESS)
  /\ stop 3000000000 0 [process.mk "load" 4 (-1) 0]
     = ([process.mk "load" 4 (-1294967296) 0],
        Throw (runtime_error invalid_operation)).
Proof. repeat split. Qed.

Lemma time_over_program_witness :
  no_reset [call_stop 5000000 99; call_stop 5000000 0;
            call_show_results "Timing"; call_stop 7000000 0] = true
  /\ run en_US
       [call_stop 5000000 99; call_stop 5000000 0;
        call_show_results "Timing"; call_stop 7000000 0]
       [process.mk "load" 2 (-1) 0]
     = ([process.mk "load" 2 7 0],
        [stopped (Throw (runtime_error invalid_operation));
         stopped (Return 0);
         shown (snd (show_results en_US "Timing" [process.mk "load" 2 5 0]));
         stopped (Return 0)])
  /\ own_stops_return 0
       [call_stop 5000000 99; call_stop 5000000 0;
        call_show_results "Timing"; call_stop 7000000 0]
       [stopped (Throw (runtime_error invalid_operation));
        stopped (Return 0);
        shown (snd (show_results en_US "Timing" [process.mk "load" 2 5 0]));
        stopped (Return 0)] = true
  /\ exists p',
       [process.mk "load" 2 7 0] !! 0%nat = Some p'
       /\ process.name p' = "load"
       /\ process.resolution p' = 2
       /\ process.start_time p' = 0
       /\ (true = false -> process.time p' = -1)
       /\ (true = true -> 0 <= process.time p')
       /\ (0 <= -1 -> 0 <= process.time p').
Proof.
  split; [reflexivity|]. split; [reflexivity|]. split; [reflexivity|].
  exact (time_over_program en_US
           [call_stop 5000000 99; call_stop 5000000 0;
            call_show_results "Timing"; call_stop 7000000 0]
           [process.mk "load" 2 (-1) 0] 0%nat (process.mk "load" 2 (-1) 0)
           eq_refl eq_refl eq_refl).
Defined.

(** ** [stop]: the value assigned *)

Lemma stop_time_case (now : Z) (p : process.t) (res : resolution) :
  resolution_of_int (process.resolution p) = Some res ->
  stop_time now p
  = to_int (chrono.duration_cast (unit_of res) (now - process.start_time p)).
Proof. intros Hres. unfold stop_time. rewrite Hres. destruct res; reflexivity. Qed.

Lemma ticks_pos (u : chrono.unit_) : 0 < chrono.ticks u.
Proof. destruct u; reflexivity. Qed.

(** Within the range of [int], [stop] stores the truncated quotient
    itself, and returns. *)
Lemma stop_time_exact (now : Z) (p : process.t) (res : resolution) :
  resolution_of_int (process.resolution p) = Some res ->
  process.start_time p <= now ->
  chrono.duration_cast (unit_of res) (now - process.start_time p) <= INT_MAX ->
  stop_time now p
  = chrono.duration_cast (unit_of res) (now - process.start_time p)
  /\ stop_time now p > UNINITIALIZED.
Proof.
  intros Hres Hnow Hmax. rewrite (stop_time_case _ _ _ Hres).
  assert (0 <= chrono.duration_cast (unit_of res) (now - process.start_time p)).
  { unfold chrono.duration_cast. apply Z.quot_pos; [lia|].
    pose proof (ticks_pos (unit_of res)). lia. }
  rewrite to_int_small by (unfold INT_MIN; lia).
  unfold UNINITIALIZED. split; [reflexivity | lia].
Qed.

(** Within the range of [int], a later [stop] of the same record stores a
    value that is not smaller. *)
Lemma stop_time_monotone (now1 now2 : Z) (p : process.t) (res : resolution) :
  resolution_of_int (process.resolution p) = Some res ->
  process.start_time p <= now1 <= now2 ->
  chrono.duration_cast (unit_of res) (now2 - process.start_time p) <= INT_MAX ->
  stop_time now1 p <= stop_time now2 p.
Proof.
  intros Hres [H1 H2] Hmax.
  assert (Hq : chrono.duration_cast (unit_of res) (now1 - process.start_time p)
               <= chrono.duration_cast (unit_of res) (now2 - process.start_time p)).
  { unfold chrono.duration_cast. apply Z.quot_le_mono; [apply ticks_pos | lia]. }
  destruct (stop_time_exact now1 p res Hres H1) as [-> _]; [lia|].
  destruct (stop_time_exact now2 p res Hres) as [-> _]; [lia | assumption | assumption].
Qed.

(** C9 fails beyond the range of [int]: [count()] is a 64-bit value and
    [time] is an [int].  A record at nanosecond resolution stopped 5 s
    after its start: [stop] returns, the quotient is 5000000000, the value
    stored is 705032704. *)
Theorem stop_stores_narrowed_quotient :
  fst (start 0 "load" nanoseconds []) = [process.mk "load" 4 (-1) 0]
  /\ chrono.duration_cast chrono.nanoseconds (5000000000 - 0) = 5000000000
  /\ stop 5000000000 0 [process.mk "load" 4 (-1) 0]
     = ([process.mk "load" 4 705032704 0], Return EXIT_SUCCESS).
Proof. repeat split. Qed.

(** C5 fails beyond the range of [int], on a monotonic clock: a record at
    nanosecond resolution stopped 2 s and again 5 s after its start.  Both
    calls return; the first stores 2000000000, the second 705032704. *)
Theorem restop_stores_smaller_value :
  stop 2000000000 0 [process.mk "load" 4 (-1) 0]
  = ([process.mk "load" 4 2000000000 0], Return EXIT_SUCCESS)
  /\ stop 5000000000 0 [process.mk "load" 4 2000000000 0]
     = ([process.mk "load" 4 705032704 0], Return EXIT_SUCCESS)
  /\ 705032704 < 2000000000.
Proof. repeat split. Qed.

(** ** Text *)

Lemma append_String (c : ascii) (s t : string) :
  String c s +:+ t = String c (s +:+ t).
Proof. reflexivity. Qed.

Lemma append_assoc (a b c : string) : (a +:+ b) +:+ c = a +:+ (b +:+ c).
Proof.
  induction a as [|x a IH]; [reflexivity|].
  rewrite !append_String, IH. reflexivity.
Qed.

Lemma append_inj_l (a b c : string) : a +:+ b = a +:+ c -> b = c.
Proof.
  induction a as [|x a IH]; [auto|].
  rewrite !append_String. intros [= H]. auto.
Qed.

(** Right adjustment does not hide the first character of a text. *)
Lemma spaces_head (k1 k2 : nat) (c1 c2 : ascii) (s1 s2 : string) :
  c1 <> " "%char -> c2 <> " "%char ->
  spaces k1 +:+ String c1 s1 = spaces k2 +:+ String c2 s2 ->
  c1 = c2.
Proof.
  intros H1 H2. revert k2.
  induction k1 as [|k1 IH]; intros [|k2]; cbn [spaces];
    rewrite ?append_String; intros [= ]; subst; eauto; contradiction.
Qed.

Lemma string_of_uint_head (u : Decimal.uint) :
  exists c s, NilZero.string_of_uint u = String c s /\ sign_or_digit c.
Proof.
  destruct u; cbn [NilZero.string_of_uint NilEmpty.string_of_uint];
    eexists _, _; (split; [reflexivity|]); unfold sign_or_digit; simpl; auto 15.
Qed.

Lemma add_grouping_last (sep d : ascii) (l : list ascii) :
  forall room g gs,
  exists pre, add_grouping sep room g gs (l ++ [d]) = pre ++ [d].
Proof.
  induction l as [|x l IH]; intros room g gs; cbn [app add_grouping].
  - destruct room as [|k]; [|exists []; reflexivity].
    cbn zeta. destruct (no_group (hd g gs)); exists [sep]; reflexivity.
  - destruct room as [|k].
    + cbn zeta. destruct (no_group (hd g gs)).
      * exists (sep :: x :: l). reflexivity.
      * destruct (IH (hd g gs - 1)%nat (hd g gs) (tl gs)) as [pre ->].
        exists (sep :: x :: pre). reflexivity.
    + destruct (IH k g gs) as [pre ->]. exists (x :: pre). reflexivity.
Qed.

(** Grouping leaves the leading digit in front. *)
Lemma group_digits_head (loc : locale) (d : ascii) (ds : list ascii) :
  exists ds', group_digits loc (d :: ds) = d :: ds'.
Proof.
  unfold group_digits. destruct (grouping loc) as [|g gs]; [eauto|].
  destruct (no_group g); [eauto|].
  cbn [rev].
  destruct (add_grouping_last (thousands_sep loc) d (rev ds) g g gs) as [pre ->].
  rewrite rev_app_distr. cbn [rev app]. eauto.
Qed.

Lemma put_int_head (loc : locale) (value : Z) :
  exists c s, put_int loc value = String c s /\ sign_or_digit c.
Proof.
  unfold put_int. destruct (Z.to_int value) as [u|u].
  - destruct (string_of_uint_head u) as (c & s & Hu & Hc).
    unfold digits_of. rewrite Hu. cbn [list_ascii_of_string].
    destruct (group_digits_head loc c (list_ascii_of_string s)) as [ds' ->].
    cbn [string_of_list_ascii]. eauto.
  - eexists _, _. split; [reflexivity|]. unfold sign_or_digit. simpl. auto.
Qed.

(** ** [show_results] *)

Lemma show_results_text (loc : locale) (table_title : string) (processes : registry) :
  snd (show_results loc table_title processes)
  = table_head table_title
    +:+ (if decide (length processes = 0%nat)
         then tab +:+ "No Events Tracked" +:+ endl
         else show_steps loc processes)
    +:+ table_foot.
Proof.
  unfold show_results, table_head, table_foot. cbv zeta. cbn [snd].
  destruct (decide (length processes = 0%nat)); rewrite !append_assoc; reflexivity.
Qed.

Lemma show_step_unset (loc : locale) (step : process.t) :
  process.time step = -1 ->
  show_step loc step = still_running_line (process.name step).
Proof.
  intros Ht. unfold show_step, still_running_line.
  destruct (decide (process.time step = -1)); [reflexivity|contradiction].
Qed.

Lemma show_step_set (loc : locale) (step : process.t) :
  process.time step <> -1 ->
  show_step loc step <> still_running_line (process.name step).
Proof.
  intros Ht Hline. unfold show_step, still_running_line in Hline.
  destruct (decide (process.time step = -1)); [contradiction|].
  unfold format_integer_thousand_separator in Hline.
  destruct (put_int_head loc (process.time step)) as (c & s & Hput & Hc).
  rewrite Hput in Hline. apply append_inj_l in Hline.
  unfold setw in Hline. rewrite !append_assoc, !append_String in Hline.
  apply spaces_head in Hline.
  - subst c. unfold sign_or_digit in Hc. simpl in Hc.
    repeat (destruct Hc as [Hc|Hc]; [discriminate Hc|]). exact Hc.
  - intros ->. unfold sign_or_digit in Hc. simpl in Hc.
    repeat (destruct Hc as [Hc|Hc]; [discriminate Hc|]). exact Hc.
  - discriminate.
Qed.

(** X11: The line of a record reads "STILL RUNNING" exactly when its [time] is
    -1, under every locale. *)
Lemma show_step_still_running (loc : locale) (step : process.t) :
  show_step loc step = still_running_line (process.name step)
  <-> process.time step = -1.
Proof.
  split.
  - intros Hline. destruct (decide (process.time step = -1)) as [Ht|Ht];
      [exact Ht|]. exfalso. exact (show_step_set loc step Ht Hline).
  - apply show_step_unset.
Qed.

(** X12: Right after a [stop] that returned, the line of its record shows a
    number. *)
Lemma show_step_after_stop (loc : locale) (now process_id v : Z)
    (processes processes' : registry) (p' : process.t) :
  stop now process_id processes = (processes', Return v) ->
  processes' !! Z.to_nat process_id = Some p' ->
  show_step loc p' <> still_running_line (process.name p').
Proof.
  intros Hstop Hp'. apply show_step_set.
  stop_cases now process_id processes as p H0 Hp Hat; [|discriminate].
  destruct (decide (stop_time now p > UNINITIALIZED)) as [Hgt|Hle];
    [|discriminate].
  injection Hstop as <- <-.
  rewrite list_lookup_insert_eq in Hp' by (eapply lookup_lt_Some; eassumption).
  injection Hp' as <-. cbn [process.set_time process.time].
  unfold UNINITIALIZED in Hgt. lia.
Qed.

(** C7: after [reset_results] the registry holds no record,
    [show_results] writes the head of the table, the one line
    "No Events Tracked" and the foot of the table, and [stop] throws
    for every handle. *)
Theorem reset_results_clears (loc : locale) (processes : registry)
    (table_title : string) (now process_id : Z) :
  reset_results processes = []
  /\ length (reset_results processes) = 0%nat
  /\ snd (show_results loc table_title (reset_results processes))
     = table_head table_title
       +:+ (tab +:+ "No Events Tracked" +:+ endl)
       +:+ table_foot
  /\ stop now process_id (reset_results processes)
     = (reset_results processes, Throw (runtime_error invalid_operation)).
Proof.
  split; [reflexivity|]. split; [reflexivity|]. split.
  - rewrite show_results_text. reflexivity.
  - apply (stop_out_of_range _ _ _ (out_of_range "deque::_M_range_check")).
    unfold reset_results, at_.
    destruct (decide (0 <= process_id)); [|reflexivity].
    rewrite lookup_nil. reflexivity.
Qed.

(** C8: [show_results] leaves the registry as it was, so the count of
    records and every field of every record are unchanged, and a second
    call with the same title writes the same text as the first; so does
    every further call. *)
Theorem show_results_pure (loc : locale) (table_title : string) (processes : registry) :
  fst (show_results loc table_title processes) = processes
  /\ length (fst (show_results loc table_title processes)) = length processes
  /\ (forall i, fst (show_results loc table_title processes) !! i = processes !! i)
  /\ snd (show_results loc table_title
            (fst (show_results loc table_title processes)))
     = snd (show_results loc table_title processes)
  /\ forall n : nat,
       run loc (replicate n (call_show_results table_title)) processes
       = (processes,
          replicate n (shown (snd (show_results loc table_title processes)))).
Proof.
  repeat split. intros n. induction n as [|n IH]; [reflexivity|].
  cbn [replicate]. rewrite run_cons, step_show_results. cbn [fst snd].
  rewrite IH. reflexivity.
Qed.

(** C6 fails beyond the range of [int], on a monotonic clock and without
    [reset_results].  (1) A record at nanosecond resolution whose only
    [stop], 3 s after its start, throws: its line shows the value stored,
    not "STILL RUNNING".  (2) The same record stopped with success after
    1000 ns and stopped again 4294967295 ns after its start: the second
    [stop] stores -1 and throws, and the line reads "STILL RUNNING"
    again. *)
Theorem still_running_line_after_stop :
  (stop 3000000000 0 [process.mk "x" 4 (-1) 0]
   = ([process.mk "x" 4 (-1294967296) 0], Throw (runtime_error invalid_operation))
   /\ show_step en_US (process.mk "x" 4 (-1294967296) 0)
      = "x" +:+ spaces 57 +:+ "-1,294,967,296 ns" +:+ endl
   /\ still_running_line "x" = "x" +:+ spaces 60 +:+ "STILL RUNNING " +:+ endl)
  /\ (stop 1000 0 [process.mk "x" 4 (-1) 0]
      = ([process.mk "x" 4 1000 0], Return EXIT_SUCCESS)
      /\ show_step en_US (process.mk "x" 4 1000 0)
         = "x" +:+ spaces 66 +:+ "1,000 ns" +:+ endl
      /\ stop 4294967295 0 [process.mk "x" 4 1000 0]
         = ([process.mk "x" 4 (-1) 0], Throw (runtime_error invalid_operation))
      /\ show_step en_US (process.mk "x" 4 (-1) 0) = still_running_line "x").
Proof. repeat split. Qed.

(** * Further properties *)

(** ** [format_integer_thousand_separator] *)

Lemma strip_of_list (sep : ascii) (l : list ascii) :
  strip sep (string_of_list_ascii l)
  = string_of_list_ascii (List.filter (fun c => negb (Ascii.eqb c sep)) l).
Proof.
  induction l as [|c l IH]; [reflexivity|].
  cbn [string_of_list_ascii strip List.filter].
  destruct (Ascii.eqb c sep); cbn [negb string_of_list_ascii]; rewrite IH; reflexivity.
Qed.

Lemma string_of_uint_digits (u : Decimal.uint) :
  Forall sign_or_digit (list_ascii_of_string (NilEmpty.string_of_uint u)).
Proof.
  induction u; cbn [NilEmpty.string_of_uint list_ascii_of_string];
    constructor; try assumption; unfold sign_or_digit; simpl; auto 15.
Qed.

Lemma digits_of_digits (u : Decimal.uint) : Forall sign_or_digit (digits_of u).
Proof.
  unfold digits_of, NilZero.string_of_uint.
  destruct u; try apply string_of_uint_digits.
  cbn [list_ascii_of_string]. constructor; [|constructor].
  unfold sign_or_digit. simpl. auto.
Qed.

Lemma keep_digits (sep : ascii) (ds : list ascii) :
  ~ sign_or_digit sep ->
  Forall sign_or_digit ds ->
  List.filter (fun c => negb (Ascii.eqb c sep)) ds = ds.
Proof.
  intros Hsep Hds. apply forallb_filter_id. apply forallb_forall.
  intros c Hc. apply negb_true_iff, Ascii.eqb_neq. intros ->.
  apply Hsep. rewrite Forall_forall in Hds. apply Hds.
  apply list_elem_of_In. exact Hc.
Qed.

Lemma filter_add_grouping (sep : ascii) (ds : list ascii) :
  ~ sign_or_digit sep ->
  Forall sign_or_digit ds ->
  forall room g gs,
  List.filter (fun c => negb (Ascii.eqb c sep)) (add_grouping sep room g gs ds) = ds.
Proof.
  intros Hsep Hds. induction Hds as [|d ds Hd Hds IH]; intros room g gs;
    [reflexivity|].
  assert (Hkeep : negb (Ascii.eqb d sep) = true).
  { apply negb_true_iff, Ascii.eqb_neq. intros ->. contradiction. }
  cbn [add_grouping]. destruct room as [|k].
  - cbv zeta. destruct (no_group (hd g gs)); cbn [List.filter];
      rewrite Ascii.eqb_refl, Hkeep; cbn [negb]; f_equal.
    + apply keep_digits; assumption.
    + apply IH.
  - cbn [List.filter]. rewrite Hkeep. f_equal. apply IH.
Qed.

Lemma filter_group_digits (loc : locale) (ds : list ascii) :
  ~ sign_or_digit (thousands_sep loc) ->
  Forall sign_or_digit ds ->
  List.filter (fun c => negb (Ascii.eqb c (thousands_sep loc))) (group_digits loc ds)
  = ds.
Proof.
  intros Hsep Hds. unfold group_digits.
  destruct (grouping loc) as [|g gs]; [apply keep_digits; assumption|].
  destruct (no_group g); [apply keep_digits; assumption|].
  rewrite List.filter_rev, filter_add_grouping, rev_involutive;
    [reflexivity | assumption | apply Forall_rev; assumption].
Qed.

Lemma put_int_classic (value : Z) :
  put_int classic_locale value = NilZero.string_of_int (Z.to_int value).
Proof.
  unfold put_int, group_digits, digits_of. cbn [grouping classic_locale].
  destruct (Z.to_int value); cbn [NilZero.string_of_int];
    rewrite string_of_list_ascii_of_string; reflexivity.
Qed.

(** X15: The digits of a formatted [int] are those of its plain decimal
    notation: without the separators of the locale the text is the
    notation itself, and reads back as the value. *)
Theorem format_integer_round_trip (loc : locale) (value : Z) :
  ~ sign_or_digit (thousands_sep loc) ->
  strip (thousands_sep loc) (format_integer_thousand_separator loc value)
  = format_integer_thousand_separator classic_locale value
  /\ option_map Z.of_int
       (NilZero.int_of_string
          (strip (thousands_sep loc) (format_integer_thousand_separator loc value)))
     = Some value.
Proof.
  intros Hsep.
  assert (Hstrip : strip (thousands_sep loc) (put_int loc value)
                   = NilZero.string_of_int (Z.to_int value)).
  { unfold put_int. destruct (Z.to_int value) as [u|u];
      cbn [NilZero.string_of_int strip].
    - rewrite strip_of_list, filter_group_digits
        by (assumption || apply digits_of_digits).
      apply string_of_list_ascii_of_string.
    - destruct (Ascii.eqb_spec "-" (thousands_sep loc)) as [Heq|_].
      + exfalso. apply Hsep. rewrite <- Heq. unfold sign_or_digit. simpl. auto.
      + rewrite strip_of_list, filter_group_digits
          by (assumption || apply digits_of_digits).
        unfold digits_of. rewrite string_of_list_ascii_of_string. reflexivity. }
  unfold format_integer_thousand_separator. rewrite Hstrip, put_int_classic.
  split; [reflexivity|].
  rewrite NilZero.isi.
  - cbn [option_map]. f_equal. apply DecimalZ.of_to.
  - destruct value as [|p|p]; try discriminate.
    intros [= H]. exact (DecimalPos.Unsigned.to_uint_nonnil p H).
  - destruct value as [|p|p]; try discriminate.
    intros [= H]. exact (DecimalPos.Unsigned.to_uint_nonnil p H).
Qed.

Lemma format_integer_round_trip_witness :
  ~ sign_or_digit (thousands_sep en_US)
  /\ format_integer_thousand_separator en_US (-1294967296) = "-1,294,967,296"
  /\ strip (thousands_sep en_US) (format_integer_thousand_separator en_US (-1294967296))
     = format_integer_thousand_separator classic_locale (-1294967296).
Proof.
  assert (H : ~ sign_or_digit (thousands_sep en_US)).
  { unfold sign_or_digit. simpl. intros Hin.
    repeat (destruct Hin as [Hin|Hin]; [discriminate Hin|]). exact Hin. }
  split; [exact H|]. split; [reflexivity|].
  exact (proj1 (format_integer_round_trip en_US (-1294967296) H)).
Defined.

Lemma length_append (a b : string) :
  String.length (a +:+ b) = (String.length a + String.length b)%nat.
Proof.
  induction a as [|x a IH]; [reflexivity|].
  rewrite append_String. cbn [String.length]. rewrite IH. reflexivity.
Qed.

Lemma length_spaces (n : nat) : String.length (spaces n) = n.
Proof. induction n as [|n IH]; [reflexivity|]. cbn [spaces String.length]. rewrite IH. reflexivity. Qed.

Lemma length_string_of_list_ascii (l : list ascii) :
  String.length (string_of_list_ascii l) = length l.
Proof.
  induction l as [|c l IH]; [reflexivity|].
  cbn [string_of_list_ascii String.length length]. rewrite IH. reflexivity.
Qed.

(** A group size that repeats: one separator before every full group. *)
Lemma length_add_grouping (sep : ascii) (g : nat) (ds : list ascii) :
  (0 < g)%nat -> no_group g = false ->
  forall room,
  length (add_grouping sep room g [] ds)
  = (length ds + (length ds - room + (g - 1)) / g)%nat.
Proof.
  intros Hg Hng. induction ds as [|d ds IH]; intros room.
  - cbn [add_grouping length]. rewrite Nat.div_small by lia. reflexivity.
  - cbn [add_grouping]. destruct room as [|k].
    + cbn [hd tl]. rewrite Hng. cbn [length]. rewrite IH.
      replace (S (length ds) - 0 + (g - 1))%nat with (length ds + 1 * g)%nat by lia.
      rewrite Nat.div_add by lia.
      destruct (le_lt_dec (g - 1) (length ds)) as [Hle|Hlt].
      * replace (length ds - (g - 1) + (g - 1))%nat with (length ds) by lia. lia.
      * replace (length ds - (g - 1) + (g - 1))%nat with (g - 1)%nat by lia.
        rewrite !Nat.div_small by lia. lia.
    + cbn [length]. rewrite IH.
      replace (S (length ds) - S k)%nat with (length ds - k)%nat by lia. lia.
Qed.

Lemma length_group_digits (loc : locale) (g : nat) (ds : list ascii) :
  grouping loc = [g] -> (0 < g < 127)%nat -> ds <> [] ->
  length (group_digits loc ds) = (length ds + (length ds - 1) / g)%nat.
Proof.
  intros Hloc Hg Hds. unfold group_digits. rewrite Hloc.
  assert (Hng : no_group g = false).
  { unfold no_group. apply orb_false_iff. split.
    - apply Nat.eqb_neq. lia.
    - apply Nat.leb_gt. lia. }
  rewrite Hng, length_rev, length_add_grouping, length_rev by (assumption || lia).
  f_equal. destruct ds as [|d ds]; [contradiction|]. cbn [length].
  destruct (le_lt_dec g (S (length ds))) as [Hle|Hlt].
  - f_equal. lia.
  - replace (S (length ds) - g + (g - 1))%nat with (g - 1)%nat by lia.
    rewrite !Nat.div_small by lia. reflexivity.
Qed.

Lemma digits_of_nonempty (u : Decimal.uint) : digits_of u <> [].
Proof.
  unfold digits_of. destruct (string_of_uint_head u) as (c & s & -> & _).
  discriminate.
Qed.

Lemma put_int_length (loc : locale) (g : nat) (value : Z) :
  grouping loc = [g] -> (0 < g < 127)%nat ->
  let n := String.length (format_integer_thousand_separator classic_locale (Z.abs value)) in
  String.length (format_integer_thousand_separator loc value)
  = ((if (value <? 0)%Z then 1 else 0) + n + (n - 1) / g)%nat.
Proof.
  intros Hloc Hg n. subst n. unfold format_integer_thousand_separator.
  rewrite put_int_classic. unfold put_int.
  destruct value as [|p|p]; cbn [Z.abs Z.to_int Z.ltb Z.compare NilZero.string_of_int];
    cbn [String.length];
    rewrite length_string_of_list_ascii,
      (length_group_digits loc g) by (assumption || apply digits_of_nonempty);
    unfold digits_of;
    rewrite <- (length_string_of_list_ascii (list_ascii_of_string _)),
      string_of_list_ascii_of_string; reflexivity.
Qed.

(** The places of the separators, counted from the least significant
    digit: with [room] digits still to go in the current group, the
    character at place [k] is the separator exactly when
    [k + (g - room) + 1] is a multiple of [g + 1]. *)
Lemma add_grouping_places (sep : ascii) (g : nat) (ds : list ascii) :
  (0 < g)%nat -> no_group g = false ->
  Forall (fun d => d <> sep) ds ->
  forall room k c,
  (room <= g)%nat ->
  add_grouping sep room g [] ds !! k = Some c ->
  (c = sep <-> ((k + (g - room) + 1) mod S g = 0)%nat).
Proof.
  intros Hg Hng Hds. induction Hds as [|d ds Hd Hds IH]; intros room k c Hroom Hk;
    [discriminate Hk|].
  cbn [add_grouping] in Hk. destruct room as [|r].
  - cbn [hd tl] in Hk. rewrite Hng in Hk.
    destruct k as [|[|k]]; cbn [lookup list_lookup] in Hk.
    + injection Hk as <-.
      replace (0 + (g - 0) + 1)%nat with (S g) by lia.
      rewrite Nat.Div0.mod_same. tauto.
    + injection Hk as <-.
      replace (1 + (g - 0) + 1)%nat with (1 + 1 * S g)%nat by lia.
      rewrite Nat.Div0.mod_add, Nat.mod_small by lia.
      split; [intros ->; contradiction | discriminate].
    + apply (IH (g - 1)%nat k c) in Hk; [|lia]. rewrite Hk.
      replace (S (S k) + (g - 0) + 1)%nat
        with (k + (g - (g - 1)) + 1 + 1 * S g)%nat by lia.
      rewrite Nat.Div0.mod_add. reflexivity.
  - destruct k as [|k]; cbn [lookup list_lookup] in Hk.
    + injection Hk as <-.
      rewrite Nat.mod_small by lia.
      split; [intros ->; contradiction | lia].
    + apply (IH r k c) in Hk; [|lia]. rewrite Hk.
      replace (S k + (g - S r) + 1)%nat with (k + (g - r) + 1)%nat by lia.
      reflexivity.
Qed.

Lemma put_int_abs (loc : locale) (value : Z) :
  put_int loc value
  = (if value <? 0 then "-" else "") +:+ put_int loc (Z.abs value).
Proof. destruct value; reflexivity. Qed.

(** X16: Under a locale with one repeating group size [g] and a separator
    that is no digit and no sign, a formatted [int] is the sign, if there
    is one, and the grouped digits; among the grouped digits, counted
    from the right, the character at place [k] (from 0) is the separator
    exactly when [k + 1] is a multiple of [g + 1]: every [g] digits from
    the right, one separator.  The text of [n] digits so has [(n - 1) / g]
    separators. *)
Theorem format_integer_grouping (loc : locale) (g : nat) (value : Z) :
  grouping loc = [g] -> (0 < g < 127)%nat ->
  ~ sign_or_digit (thousands_sep loc) ->
  format_integer_thousand_separator loc value
  = (if value <? 0 then "-" else "")
    +:+ format_integer_thousand_separator loc (Z.abs value)
  /\ (forall k c,
        rev (list_ascii_of_string
               (format_integer_thousand_separator loc (Z.abs value))) !! k = Some c ->
        (c = thousands_sep loc <-> ((k + 1) mod S g = 0)%nat))
  /\ (let n := String.length
               (format_integer_thousand_separator classic_locale (Z.abs value)) in
      String.length (format_integer_thousand_separator loc value)
      = ((if (value <? 0)%Z then 1 else 0) + n + (n - 1) / g)%nat).
Proof.
  intros Hloc Hg Hsep.
  split; [apply put_int_abs|]. split; [|apply put_int_length; assumption].
  intros k c. unfold format_integer_thousand_separator, put_int.
  assert (Hng : no_group g = false).
  { unfold no_group. apply orb_false_iff. split.
    - apply Nat.eqb_neq. lia.
    - apply Nat.leb_gt. lia. }
  assert (Hpos : exists u, Z.to_int (Z.abs value) = Decimal.Pos u)
    by (destruct value; cbn; eauto).
  destruct Hpos as [u ->].
  rewrite list_ascii_of_string_of_list_ascii.
  unfold group_digits. rewrite Hloc, Hng, rev_involutive.
  intros Hk.
  rewrite (add_grouping_places (thousands_sep loc) g (rev (digits_of u))
             ltac:(lia) Hng) with (room := g) (k := k); [| |lia|exact Hk].
  - rewrite Nat.sub_diag, Nat.add_0_r. reflexivity.
  - apply Forall_rev. eapply Forall_impl; [apply digits_of_digits|].
    intros d Hd ->. contradiction.
Qed.

Lemma format_integer_grouping_witness :
  (grouping en_US = [3%nat]
   /\ (0 < 3 < 127)%nat
   /\ ~ sign_or_digit (thousands_sep en_US))
  /\ format_integer_thousand_separator en_US (-1294967296)
     = "-" +:+ format_integer_thousand_separator en_US 1294967296
  /\ format_integer_thousand_separator en_US 1294967296 = "1,294,967,296".
Proof.
  assert (H : ~ sign_or_digit (thousands_sep en_US)).
  { unfold sign_or_digit. simpl. intros Hin.
    repeat (destruct Hin as [Hin|Hin]; [discriminate Hin|]). exact Hin. }
  split; [split; [reflexivity | split; [lia | exact H]]|].
  split; [|reflexivity].
  apply (format_integer_grouping en_US 3 (-1294967296)); [reflexivity | lia | exact H].
Defined.

(** ** The lines of [show_results] *)

Lemma to_int_to_size_t (z : Z) : INT_MIN <= z <= INT_MAX -> to_int (to_size_t z) = z.
Proof.
  intros Hz. rewrite <- (to_int_small z Hz) at 2. unfold to_int, to_size_t.
  f_equal. rewrite (Z.mod_eq z 18446744073709551616) by lia.
  replace (z - 18446744073709551616 * (z / 18446744073709551616) + 2147483648)
    with (z + 2147483648 + (- (z / 18446744073709551616) * 4294967296) * 4294967296)
    by lia.
  apply Z_mod_plus_full.
Qed.

Lemma show_step_runtime (loc : locale) (step : process.t) :
  show_step loc step
  = process.name step
    +:+ setw (to_int (to_size_t (size table_seperator - size (process.name step))))
          (runtime_string loc step)
    +:+ endl.
Proof.
  unfold show_step, runtime_string.
  destruct (decide (process.time step = -1)); reflexivity.
Qed.

(** X14: Under a locale, the line of a record is its name, then spaces,
    then the right column, then the line feed, and nothing else.  The
    spaces fill the line up to the 75 characters of the separator, so the
    right column ends at the right edge of the table; when name and right
    column need more than 75 characters there is no space, the two are
    written one after the other and nothing is cut. *)
Theorem show_step_width (loc : locale) (step : process.t) :
  size (process.name step) <= INT_MAX ->
  show_step loc step
  = process.name step
    +:+ spaces (75 - (String.length (process.name step)
                      + String.length (runtime_string loc step)))
    +:+ runtime_string loc step
    +:+ endl
  /\ String.length (show_step loc step)
     = S (Nat.max 75 (String.length (process.name step)
                      + String.length (runtime_string loc step))).
Proof.
  intros Hname.
  assert (Hline : show_step loc step
    = process.name step
      +:+ spaces (75 - (String.length (process.name step)
                        + String.length (runtime_string loc step)))
      +:+ runtime_string loc step
      +:+ endl).
  { rewrite show_step_runtime, to_int_to_size_t.
    - unfold setw. rewrite append_assoc. change (size table_seperator) with 75.
      unfold size.
      replace (Z.to_nat (75 - Z.of_nat (String.length (process.name step))
                         - Z.of_nat (String.length (runtime_string loc step))))
        with (75 - (String.length (process.name step)
                    + String.length (runtime_string loc step)))%nat by lia.
      reflexivity.
    - change (size table_seperator) with 75.
      unfold size, INT_MIN, INT_MAX in *. lia. }
  split; [exact Hline|].
  rewrite Hline, !length_append, length_spaces.
  change (String.length endl) with 1%nat. lia.
Qed.

Lemma show_step_width_witness :
  size (process.name (process.mk "load" 2 5 0)) <= INT_MAX
  /\ show_step en_US (process.mk "load" 2 5 0)
     = "load" +:+ spaces 67 +:+ "5 ms" +:+ endl.
Proof.
  split; [vm_compute; discriminate|].
  apply (show_step_width en_US (process.mk "load" 2 5 0)).
  vm_compute. discriminate.
Defined.

(** ** [stop]: the value stored *)

(** X2: [stop] of a record in range at a clock reading not before its start
    and not more than [INT_MAX] units after it returns and stores the
    truncated quotient. *)
Theorem stop_stores_quotient (now process_id : Z) (processes : registry)
    (p : process.t) (res : resolution) :
  0 <= process_id ->
  processes !! Z.to_nat process_id = Some p ->
  resolution_of_int (process.resolution p) = Some res ->
  process.start_time p <= now ->
  chrono.duration_cast (unit_of res) (now - process.start_time p) <= INT_MAX ->
  stop now process_id processes
  = (<[Z.to_nat process_id :=
         process.set_time
           (chrono.duration_cast (unit_of res) (now - process.start_time p)) p]>
       processes,
     Return EXIT_SUCCESS).
Proof.
  intros H0 Hp Hres Hnow Hmax.
  rewrite (stop_in_range _ _ _ _ H0 Hp).
  destruct (stop_time_exact now p res Hres Hnow Hmax) as [-> Hgt].
  destruct (decide (_ > UNINITIALIZED)); [reflexivity|contradiction].
Qed.

Lemma stop_stores_quotient_witness :
  (0 <= 1
   /\ [process.mk "load" 2 (-1) 0; process.mk "parse" 3 (-1) 10] !! Z.to_nat 1
      = Some (process.mk "parse" 3 (-1) 10)
   /\ resolution_of_int 3 = Some microseconds
   /\ 10 <= 2500
   /\ chrono.duration_cast chrono.microseconds (2500 - 10) <= INT_MAX)
  /\ stop 2500 1 [process.mk "load" 2 (-1) 0; process.mk "parse" 3 (-1) 10]
     = ([process.mk "load" 2 (-1) 0; process.mk "parse" 3 2 10],
        Return EXIT_SUCCESS).
Proof.
  assert (H : chrono.duration_cast chrono.microseconds (2500 - 10) <= INT_MAX)
    by (vm_compute; discriminate).
  split; [split; [lia | split; [reflexivity | split; [reflexivity | split; [lia | exact H]]]]|].
  apply (stop_stores_quotient 2500 1
           [process.mk "load" 2 (-1) 0; process.mk "parse" 3 (-1) 10]
           (process.mk "parse" 3 (-1) 10) microseconds);
    first [reflexivity | lia | exact H].
Defined.

Lemma quot_abs_le (a t : Z) : 0 < t -> Z.abs (a ÷ t) <= Z.abs a.
Proof.
  intros Ht.
  assert (H : forall x, 0 <= x -> 0 <= x ÷ t <= x).
  { intros x Hx. pose proof (Z.quot_rem' x t) as Hqr.
    pose proof (Z.rem_bound_pos x t Hx Ht) as Hr.
    pose proof (Z.quot_pos x t Hx Ht) as Hq. nia. }
  destruct (Z.le_gt_cases 0 a) as [Ha|Ha].
  - specialize (H a Ha). lia.
  - specialize (H (- a) ltac:(lia)). rewrite Z.quot_opp_l in H by lia. lia.
Qed.

(** X3: A clock that stepped back: [stop] at a reading before the start of
    the record returns, storing 0, when the step is shorter than one unit
    of the record (the quotient is truncated toward zero), and throws
    when it is one unit or longer. *)
Theorem stop_before_start (now process_id : Z) (processes : registry)
    (p : process.t) (res : resolution) :
  0 <= process_id ->
  processes !! Z.to_nat process_id = Some p ->
  resolution_of_int (process.resolution p) = Some res ->
  now <= process.start_time p ->
  process.start_time p - now <= INT_MAX ->
  (process.start_time p - now < chrono.ticks (unit_of res) ->
   stop now process_id processes
   = (<[Z.to_nat process_id := process.set_time 0 p]> processes,
      Return EXIT_SUCCESS))
  /\ (chrono.ticks (unit_of res) <= process.start_time p - now ->
      snd (stop now process_id processes)
      = Throw (runtime_error invalid_operation)).
Proof.
  intros H0 Hp Hres Hnow Hmax.
  pose proof (ticks_pos (unit_of res)) as Ht.
  pose proof (quot_abs_le (now - process.start_time p) _ Ht) as Habs.
  assert (Hq0 : chrono.duration_cast (unit_of res) (now - process.start_time p) <= 0).
  { unfold chrono.duration_cast.
    rewrite <- (Z.quot_0_l (chrono.ticks (unit_of res))) by lia.
    apply Z.quot_le_mono; lia. }
  assert (Hto : stop_time now p
                = chrono.duration_cast (unit_of res) (now - process.start_time p)).
  { rewrite (stop_time_case _ _ _ Hres). apply to_int_small.
    unfold chrono.duration_cast, INT_MIN, INT_MAX in *. lia. }
  rewrite (stop_in_range _ _ _ _ H0 Hp), Hto. unfold UNINITIALIZED. split.
  - intros Hshort.
    assert (Hz : chrono.duration_cast (unit_of res) (now - process.start_time p) = 0).
    { unfold chrono.duration_cast. apply Z.quot_small_iff; lia. }
    rewrite Hz. reflexivity.
  - intros Hlong. cbn [snd].
    assert (Hnz : chrono.duration_cast (unit_of res) (now - process.start_time p) <> 0).
    { unfold chrono.duration_cast. rewrite Z.quot_small_iff by lia. lia. }
    destruct (decide (_ > -1)); [lia | reflexivity].
Qed.

Lemma stop_before_start_witness :
  (0 <= 0
   /\ [process.mk "load" 2 (-1) 5000000] !! Z.to_nat 0
      = Some (process.mk "load" 2 (-1) 5000000)
   /\ resolution_of_int 2 = Some milliseconds
   /\ 4500000 <= 5000000
   /\ 5000000 - 4500000 <= INT_MAX
   /\ 5000000 - 4500000 < chrono.ticks chrono.milliseconds)
  /\ stop 4500000 0 [process.mk "load" 2 (-1) 5000000]
     = ([process.mk "load" 2 0 5000000], Return EXIT_SUCCESS).
Proof.
  split; [split; [lia | split; [reflexivity | split; [reflexivity | split; [lia | split; [vm_compute; discriminate | reflexivity]]]]]|].
  apply (stop_before_start 4500000 0 [process.mk "load" 2 (-1) 5000000]
           (process.mk "load" 2 (-1) 5000000) milliseconds);
    first [reflexivity | lia | (vm_compute; (reflexivity || discriminate))].
Defined.

(** ** [stop] after [stop] *)

Lemma stop_time_set_time (now1 now2 : Z) (p : process.t) :
  stop_time now2 (process.set_time (stop_time now1 p) p) = stop_time now2 p.
Proof.
  unfold stop_time. cbn [process.set_time process.resolution process.start_time process.time].
  destruct (resolution_of_int (process.resolution p)) as [[]|]; reflexivity.
Qed.

(** X4: The last [stop] of a record wins: an earlier [stop] of the same
    handle, returned or thrown, leaves no trace in the registry or in the
    outcome of the later one. *)
Theorem stop_stop (now1 now2 process_id : Z) (processes : registry) :
  stop now2 process_id (fst (stop now1 process_id processes))
  = stop now2 process_id processes.
Proof.
  stop_cases now1 process_id processes as p H0 Hp Hat; [|reflexivity].
  cbn [fst].
  assert (Hlt : (Z.to_nat process_id < length processes)%nat)
    by (eapply lookup_lt_Some; eassumption).
  rewrite (stop_in_range now2 process_id _
             (process.set_time (stop_time now1 p) p) H0)
    by (apply list_lookup_insert_eq; assumption).
  rewrite (stop_in_range now2 process_id processes p H0 Hp).
  rewrite list_insert_insert_eq, stop_time_set_time. reflexivity.
Qed.

(** X5: [stop] calls of different handles do not see each other: the outcome
    of one is the same with or without the other before it, and the
    registry after both is the same in either order. *)
Theorem stop_other_handle (now_a now_b a b : Z) (processes : registry) :
  a <> b ->
  snd (stop now_b b (fst (stop now_a a processes))) = snd (stop now_b b processes)
  /\ fst (stop now_b b (fst (stop now_a a processes)))
     = fst (stop now_a a (fst (stop now_b b processes))).
Proof.
  intros Hab.
  stop_cases now_a a processes as pa Ha0 Hpa Hata; cbn [fst];
    stop_cases now_b b processes as pb Hb0 Hpb Hatb; cbn [fst snd].
  - assert (Hne : Z.to_nat a <> Z.to_nat b) by lia.
    rewrite (stop_in_range now_b b _ pb Hb0)
      by (rewrite list_lookup_insert_ne by assumption; assumption).
    rewrite (stop_in_range now_a a _ pa Ha0)
      by (rewrite list_lookup_insert_ne by auto; assumption).
    cbn [fst snd]. split; [reflexivity|].
    apply list_insert_insert_ne. auto.
  - rewrite (stop_in_range now_a a processes pa Ha0 Hpa). cbn [fst].
    destruct (at_Throw (<[Z.to_nat a := process.set_time (stop_time now_a pa) pa]>
                          processes) b) as [e' He'].
    { rewrite length_insert. eapply at_Throw_inv. eassumption. }
    rewrite (stop_out_of_range now_b b _ e' He'). split; reflexivity.
  - destruct (at_Throw (<[Z.to_nat b := process.set_time (stop_time now_b pb) pb]>
                          processes) a) as [e' He'].
    { rewrite length_insert. eapply at_Throw_inv. eassumption. }
    rewrite (stop_out_of_range now_a a _ e' He'). split; reflexivity.
  - rewrite (stop_out_of_range now_a a processes _ Hata). split; reflexivity.
Qed.

Lemma stop_other_handle_witness :
  0 <> 1
  /\ fst (stop 2500 1 (fst (stop 5000000 0
            [process.mk "load" 2 (-1) 0; process.mk "parse" 3 (-1) 10])))
     = fst (stop 5000000 0 (fst (stop 2500 1
            [process.mk "load" 2 (-1) 0; process.mk "parse" 3 (-1) 10]))).
Proof.
  split; [discriminate|].
  apply (stop_other_handle 5000000 2500 0 1
           [process.mk "load" 2 (-1) 0; process.mk "parse" 3 (-1) 10]).
  discriminate.
Defined.

(** X6: A record stopped twice, within the range of [int] and on a clock that
    does not run back: both calls return and the second value stored is
    not smaller than the first. *)
Theorem restop_within_range (now1 now2 process_id : Z) (processes : registry)
    (p : process.t) (res : resolution) :
  0 <= process_id ->
  processes !! Z.to_nat process_id = Some p ->
  resolution_of_int (process.resolution p) = Some res ->
  process.start_time p <= now1 <= now2 ->
  chrono.duration_cast (unit_of res) (now2 - process.start_time p) <= INT_MAX ->
  exists p1 p2,
    stop now1 process_id processes
    = (<[Z.to_nat process_id := p1]> processes, Return EXIT_SUCCESS)
    /\ stop now2 process_id (<[Z.to_nat process_id := p1]> processes)
       = (<[Z.to_nat process_id := p2]> processes, Return EXIT_SUCCESS)
    /\ process.time p1 <= process.time p2
    /\ process.time p2
       = chrono.duration_cast (unit_of res) (now2 - process.start_time p).
Proof.
  intros H0 Hp Hres [Hn1 Hn2] Hmax.
  assert (Hq : chrono.duration_cast (unit_of res) (now1 - process.start_time p)
               <= chrono.duration_cast (unit_of res) (now2 - process.start_time p)).
  { unfold chrono.duration_cast. apply Z.quot_le_mono; [apply ticks_pos | lia]. }
  exists (process.set_time
            (chrono.duration_cast (unit_of res) (now1 - process.start_time p)) p),
         (process.set_time
            (chrono.duration_cast (unit_of res) (now2 - process.start_time p)) p).
  assert (Hlt : (Z.to_nat process_id < length processes)%nat)
    by (eapply lookup_lt_Some; eassumption).
  split; [|split; [|split; [exact Hq | reflexivity]]].
  - rewrite (stop_in_range _ _ _ _ H0 Hp).
    destruct (stop_time_exact now1 p res Hres Hn1) as [-> Hgt]; [lia|].
    destruct (decide (_ > UNINITIALIZED)); [reflexivity|contradiction].
  - rewrite (stop_in_range now2 process_id _ _ H0
               (list_lookup_insert_eq _ _ _ Hlt)).
    rewrite list_insert_insert_eq.
    destruct (stop_time_exact now2
                (process.set_time
                   (chrono.duration_cast (unit_of res) (now1 - process.start_time p)) p)
                res Hres) as [-> Hgt];
      cbn [process.set_time process.start_time]; [lia | assumption |].
    destruct (decide (_ > UNINITIALIZED)); [reflexivity|contradiction].
Qed.

Lemma restop_within_range_witness :
  (0 <= 0
   /\ [process.mk "load" 2 (-1) 0] !! Z.to_nat 0 = Some (process.mk "load" 2 (-1) 0)
   /\ resolution_of_int 2 = Some milliseconds
   /\ 0 <= 5000000 <= 7000000
   /\ chrono.duration_cast (unit_of milliseconds) (7000000 - 0) <= INT_MAX)
  /\ exists p1 p2,
       stop 5000000 0 [process.mk "load" 2 (-1) 0]
       = (<[Z.to_nat 0 := p1]> [process.mk "load" 2 (-1) 0], Return EXIT_SUCCESS)
       /\ stop 7000000 0 (<[Z.to_nat 0 := p1]> [process.mk "load" 2 (-1) 0])
          = (<[Z.to_nat 0 := p2]> [process.mk "load" 2 (-1) 0], Return EXIT_SUCCESS)
       /\ process.time p1 <= process.time p2
       /\ process.time p2 = 7.
Proof.
  assert (H : chrono.duration_cast (unit_of milliseconds) (7000000 - 0) <= INT_MAX)
    by (vm_compute; discriminate).
  split; [split; [lia | split; [reflexivity | split; [reflexivity | split; [lia | exact H]]]]|].
  apply (restop_within_range 5000000 7000000 0 [process.mk "load" 2 (-1) 0]
           (process.mk "load" 2 (-1) 0) milliseconds);
    first [reflexivity | exact H | cbn; lia].
Defined.

(** ** [start], then [stop] and [show_results] *)

Lemma resolution_of_int_of_resolution (res : resolution) :
  resolution_of_int (int_of_resolution res) = Some res.
Proof. destruct res; reflexivity. Qed.

(** X7: The handle that [start] returns is good for [stop]: on a registry of
    at most [INT_MAX] records, [stop] of the returned handle at a later
    clock reading, at most [INT_MAX] units later, returns, and the
    registry is the old one followed by the new record with its name, its
    unit, the elapsed value and its start instant. *)
Theorem start_then_stop (now1 now2 : Z) (process_name : string)
    (res : resolution) (processes : registry) :
  Z.of_nat (length processes) <= INT_MAX ->
  now1 <= now2 ->
  chrono.duration_cast (unit_of res) (now2 - now1) <= INT_MAX ->
  snd (start now1 process_name res processes) = Z.of_nat (length processes)
  /\ stop now2 (snd (start now1 process_name res processes))
       (fst (start now1 process_name res processes))
     = (processes
        ++ [process.mk process_name (int_of_resolution res)
              (chrono.duration_cast (unit_of res) (now2 - now1)) now1],
        Return EXIT_SUCCESS).
Proof.
  intros Hlen Hnow Hmax.
  assert (Hh : snd (start now1 process_name res processes)
               = Z.of_nat (length processes)).
  { unfold start. cbn [snd]. apply to_int_small. unfold INT_MIN. lia. }
  split; [exact Hh|]. rewrite Hh.
  pose proof (start_unset now1 process_name res processes) as Hnew.
  rewrite (stop_in_range now2 _ _ _ (Nat2Z.is_nonneg _)
             ltac:(rewrite Nat2Z.id; exact Hnew)).
  destruct (stop_time_exact now2
              (process.mk process_name (int_of_resolution res) UNINITIALIZED now1)
              res) as [-> Hgt];
    cbn [process.resolution process.start_time];
    [apply resolution_of_int_of_resolution | assumption | assumption |].
  destruct (decide (_ > UNINITIALIZED)); [|contradiction].
  f_equal. rewrite Nat2Z.id. unfold start. cbn [fst].
  rewrite insert_app_r_alt, Nat.sub_diag by lia. reflexivity.
Qed.

Lemma start_then_stop_witness :
  (Z.of_nat (length [process.mk "load" 2 (-1) 0]) <= INT_MAX
   /\ 10 <= 2500
   /\ chrono.duration_cast (unit_of microseconds) (2500 - 10) <= INT_MAX)
  /\ snd (start 10 "parse" microseconds [process.mk "load" 2 (-1) 0]) = 1
  /\ stop 2500 1 (fst (start 10 "parse" microseconds [process.mk "load" 2 (-1) 0]))
     = ([process.mk "load" 2 (-1) 0; process.mk "parse" 3 2 10], Return EXIT_SUCCESS).
Proof.
  assert (H1 : Z.of_nat (length [process.mk "load" 2 (-1) 0]) <= INT_MAX)
    by (vm_compute; discriminate).
  assert (H2 : chrono.duration_cast (unit_of microseconds) (2500 - 10) <= INT_MAX)
    by (vm_compute; discriminate).
  split; [split; [exact H1 | split; [lia | exact H2]]|].
  apply (start_then_stop 10 2500 "parse" microseconds [process.mk "load" 2 (-1) 0]);
    first [exact H1 | exact H2 | lia].
Defined.

Lemma show_steps_app (loc : locale) (l1 l2 : registry) :
  show_steps loc (l1 ++ l2) = show_steps loc l1 +:+ show_steps loc l2.
Proof.
  induction l1 as [|step l1 IH]; [reflexivity|].
  cbn [app show_steps]. rewrite IH, append_assoc. reflexivity.
Qed.

Lemma append_empty_r (s : string) : s +:+ "" = s.
Proof.
  induction s as [|c s IH]; [reflexivity|].
  rewrite append_String, IH. reflexivity.
Qed.

(** X13: Under a locale, [show_results] after a [start] writes the
    lines of the records that were there, in their order, and below them
    the line of the new record, which reads "STILL RUNNING"; the line
    "No Events Tracked" is gone. *)
Theorem show_results_after_start (loc : locale) (table_title : string)
    (now : Z) (process_name : string) (res : resolution) (processes : registry) :
  snd (show_results loc table_title (fst (start now process_name res processes)))
  = table_head table_title
    +:+ (show_steps loc processes +:+ still_running_line process_name)
    +:+ table_foot.
Proof.
  rewrite show_results_text.
  destruct (decide (length (fst (start now process_name res processes)) = 0%nat))
    as [Hlen|_]; [rewrite start_length in Hlen; discriminate Hlen|].
  unfold start. cbn [fst]. rewrite show_steps_app. cbn [show_steps].
  rewrite show_step_unset by reflexivity. rewrite append_empty_r. reflexivity.
Qed.

(** ** Programs with [reset_results] *)

Section programs_with_reset.

Context (loc : locale).

Lemma run_app (cs1 cs2 : list call) :
  forall processes : registry,
  run loc (cs1 ++ cs2) processes
  = (fst (run loc cs2 (fst (run loc cs1 processes))),
     snd (run loc cs1 processes) ++ snd (run loc cs2 (fst (run loc cs1 processes)))).
Proof.
  induction cs1 as [|c cs1 IH]; intros processes.
  - cbn [app run fst snd]. destruct (run loc cs2 processes). reflexivity.
  - cbn [app]. rewrite !run_cons, IH. reflexivity.
Qed.

Lemma length_run (cs : list call) :
  forall processes : registry, length (snd (run loc cs processes)) = length cs.
Proof.
  induction cs as [|c cs IH]; intros processes; [reflexivity|].
  rewrite run_cons. cbn [snd length]. rewrite IH. reflexivity.
Qed.

(** X10: [reset_results] forgets: the registry after it, and the outcome of
    every later call, are those of the later calls alone on an empty
    registry, whatever was recorded before. *)
Theorem reset_forgets (cs1 cs2 : list call) (processes : registry) :
  run loc (cs1 ++ call_reset_results :: cs2) processes
  = (fst (run loc cs2 []),
     snd (run loc cs1 processes) ++ cleared :: snd (run loc cs2 [])).
Proof. rewrite run_app, run_cons. reflexivity. Qed.

Lemma step_fields (c : call) (processes : registry) (i : nat) (p : process.t) :
  is_reset c = false ->
  processes !! i = Some p ->
  exists p',
    fst (step loc c processes) !! i = Some p'
    /\ process.name p' = process.name p
    /\ process.resolution p' = process.resolution p
    /\ process.start_time p' = process.start_time p.
Proof.
  intros Hreset Hp.
  destruct c as [now process_name res|now process_id|table_title|];
    [| | |discriminate Hreset].
  - exists p. rewrite step_start. cbn [fst]. unfold start. cbn [fst].
    rewrite lookup_app_l by (eapply lookup_lt_Some; eassumption). auto.
  - rewrite step_stop. cbn [fst].
    stop_cases now process_id processes as q H0 Hq Hat; cbn [fst]; [|eauto].
    destruct (decide (i = Z.to_nat process_id)) as [->|Hne].
    + assert (q = p) as -> by congruence.
      exists (process.set_time (stop_time now p) p).
      rewrite list_lookup_insert_eq by (eapply lookup_lt_Some; eassumption).
      auto.
    + exists p. rewrite list_lookup_insert_ne by auto. auto.
  - exists p. rewrite step_show_results. auto.
Qed.

Lemma length_step (c : call) (processes : registry) :
  is_reset c = false ->
  length (fst (step loc c processes))
  = (length processes + if is_start c then 1 else 0)%nat.
Proof.
  intros Hreset.
  destruct c as [now process_name res|now process_id|table_title|];
    [| | |discriminate Hreset]; cbn [is_start].
  - rewrite step_start. cbn [fst]. rewrite start_length. lia.
  - rewrite step_stop. cbn [fst]. rewrite stop_length. lia.
  - rewrite step_show_results. cbn [fst]. lia.
Qed.

Lemma run_fields (cs : list call) :
  forall (processes : registry) (i : nat) (p : process.t),
  no_reset cs = true ->
  processes !! i = Some p ->
  exists p',
    fst (run loc cs processes) !! i = Some p'
    /\ process.name p' = process.name p
    /\ process.resolution p' = process.resolution p
    /\ process.start_time p' = process.start_time p.
Proof.
  induction cs as [|c cs IH]; intros processes i p Hnr Hp; [eauto|].
  apply no_reset_cons in Hnr as [Hc Hcs]. rewrite run_cons. cbn [fst].
  destruct (step_fields c processes i p Hc Hp) as (p1 & Hp1 & Hn1 & Hr1 & Hs1).
  destruct (IH _ i p1 Hcs Hp1) as (p' & Hp' & Hn & Hr & Hs).
  exists p'. repeat split; congruence.
Qed.

Lemma length_run_registry (cs : list call) :
  forall processes : registry,
  no_reset cs = true ->
  length (fst (run loc cs processes)) = (length processes + count_starts cs)%nat.
Proof.
  induction cs as [|c cs IH]; intros processes Hnr.
  - cbn. lia.
  - apply no_reset_cons in Hnr as [Hc Hcs]. rewrite run_cons. cbn [fst].
    rewrite (IH _ Hcs), (length_step _ _ Hc). unfold count_starts.
    cbn [List.filter]. destruct (is_start c); cbn [length]; lia.
Qed.

(** X9: Over every program without [reset_results], also one whose [stop]
    calls throw and also on an empty registry, the registry grows by one
    record per [start] and by nothing else; and a record of the registry
    keeps its index, its [name], its [resolution] and its [start_time]. *)
Theorem records_kept (cs : list call) (processes : registry) :
  no_reset cs = true ->
  length (fst (run loc cs processes)) = (length processes + count_starts cs)%nat
  /\ forall (i : nat) (p : process.t),
       processes !! i = Some p ->
       exists p',
         fst (run loc cs processes) !! i = Some p'
         /\ process.name p' = process.name p
         /\ process.resolution p' = process.resolution p
         /\ process.start_time p' = process.start_time p.
Proof.
  intros Hnr. split.
  - apply length_run_registry. exact Hnr.
  - intros i p Hp. eapply run_fields; eassumption.
Qed.

(** X8: The handle of a [start] call names its record until the next
    [reset_results]: in a program without [reset_results], a [start]
    that finds n <= [INT_MAX] records returns n, and at the end of the
    program [at(n)] is a record with the name, the unit and the start
    instant of that call. *)
Theorem handle_names_record (cs1 cs2 : list call) (now : Z)
    (process_name : string) (res : resolution) (processes : registry) :
  no_reset cs1 = true ->
  no_reset cs2 = true ->
  Z.of_nat (length processes + count_starts cs1) <= INT_MAX ->
  let n := (length processes + count_starts cs1)%nat in
  let r := run loc (cs1 ++ call_start now process_name res :: cs2) processes in
  snd r !! length cs1 = Some (started (Z.of_nat n))
  /\ exists p,
       at_ (fst r) (Z.of_nat n) = Return p
       /\ process.name p = process_name
       /\ process.resolution p = int_of_resolution res
       /\ process.start_time p = now.
Proof.
  intros Hnr1 Hnr2 Hmax n r. subst n r.
  rewrite run_app, run_cons, step_start. cbn [fst snd].
  rewrite (length_run_registry cs1 processes Hnr1).
  split.
  - rewrite lookup_app_r by (rewrite length_run; lia).
    rewrite length_run, Nat.sub_diag. cbn.
    rewrite to_int_small by (unfold INT_MIN; lia). reflexivity.
  - pose proof (start_unset now process_name res (fst (run loc cs1 processes))) as Hnew.
    rewrite (length_run_registry cs1 processes Hnr1) in Hnew.
    destruct (run_fields cs2 _ _ _ Hnr2 Hnew) as (p' & Hp' & Hn & Hr & Hs).
    exists p'. split; [|auto].
    apply at_Return. split; [lia|]. rewrite Nat2Z.id. exact Hp'.
Qed.

End programs_with_reset.

Lemma records_kept_witness :
  no_reset [call_start 0 "load" nanoseconds; call_stop 3000000000 0;
            call_start 7 "parse" microseconds] = true
  /\ run en_US [call_start 0 "load" nanoseconds; call_stop 3000000000 0;
                call_start 7 "parse" microseconds] []
     = ([process.mk "load" 4 (-1294967296) 0; process.mk "parse" 3 (-1) 7],
        [started 0; stopped (Throw (runtime_error invalid_operation)); started 1])
  /\ length (fst (run en_US [call_start 0 "load" nanoseconds; call_stop 3000000000 0;
                             call_start 7 "parse" microseconds] [])) = 2%nat.
Proof.
  split; [reflexivity|]. split; [reflexivity|].
  exact (proj1 (records_kept en_US
           [call_start 0 "load" nanoseconds; call_stop 3000000000 0;
            call_start 7 "parse" microseconds] [] eq_refl)).
Defined.

Lemma handle_names_record_witness :
  (no_reset [call_start 0 "load" milliseconds] = true
   /\ no_reset [call_stop 5000000 0; call_show_results "Timing"] = true
   /\ Z.of_nat (length (@nil process.t) + count_starts [call_start 0 "load" milliseconds])
      <= INT_MAX)
  /\ snd (run en_US
            ([call_start 0 "load" milliseconds]
             ++ call_start 10 "parse" microseconds
                :: [call_stop 5000000 0; call_show_results "Timing"]) [])
       !! 1%nat
     = Some (started 1).
Proof.
  assert (H : Z.of_nat (length (@nil process.t)
                        + count_starts [call_start 0 "load" milliseconds]) <= INT_MAX)
    by (vm_compute; discriminate).
  split; [split; [reflexivity | split; [reflexivity | exact H]]|].
  exact (proj1 (handle_names_record en_US [call_start 0 "load" milliseconds]
                  [call_stop 5000000 0; call_show_results "Timing"]
                  10 "parse" microseconds [] eq_refl eq_refl H)).
Defined.

Lemma show_step_after_stop_witness :
  stop 5000000 0 [process.mk "load" 2 (-1) 0]
  = ([process.mk "load" 2 5 0], Return 0)
  /\ [process.mk "load" 2 5 0] !! Z.to_nat 0 = Some (process.mk "load" 2 5 0)
  /\ show_step en_US (process.mk "load" 2 5 0)
     <> still_running_line (process.name (process.mk "load" 2 5 0)).
Proof.
  split; [reflexivity|]. split; [reflexivity|].
  exact (show_step_after_stop en_US 5000000 0 0 [process.mk "load" 2 (-1) 0]
           [process.mk "load" 2 5 0] (process.mk "load" 2 5 0) eq_refl eq_refl).
Defined.
